(** * Lchat translation pipeline: a shallow embedding and its properties

    The development embeds the backend translation pipeline of Lchat:

    - [backend/utils/translate.js]: [translateText], [detectLanguage],
      [lookupCulturalIdiom] and the nested [getPhraseFromCSV];
    - [backend/utils/localTranslator.js]: [loadModel], [localTranslate];
    - [backend/routes/translation.js]: the [POST /] handler with its CSV
      update step, [GET /languages] and [POST /detect];
    - [backend/routes/audio.js]: [POST /transcribe-and-translate], which
      calls [localTranslate] itself;
    - the sentence split of the [sendMessage] handler.

    JavaScript strings are sequences of UTF-16 code units, here [list Z].
    The [../data] directory is a finite map from file names to contents.
    Code that touches the file system, the model cache or the model itself
    runs in a state-and-exception monad [M]; every call to the outside
    world is recorded in a trace, so that "was the engine invoked" and
    "was a file written" are statements about the final state.  What the
    program cannot decide itself (Unicode lower-casing, which file
    operations fail, what the neural model answers, the preprocessing
    stage) is collected in a [Host]. *)

From Stdlib Require Import ZArith List Bool String Ascii QArith Lia.
From stdpp Require Import base option list gmap strings.

Local Open Scope Z_scope.

(* ================================================================== *)
(** * Part I: definitions *)
(* ================================================================== *)

(** ** JavaScript strings *)

Abbreviation jsstring := (list Z).

(** An ASCII literal as a JavaScript string. *)
Definition js (s : string) : jsstring :=
  map (fun a => Z.of_N (N_of_ascii a)) (list_ascii_of_string s).

Definition QUOTE : Z := 34.
Definition COMMA : Z := 44.
Definition LF : Z := 10.
Definition CR : Z := 13.

(** ECMAScript [WhiteSpace] and [LineTerminator] code units, the ones
    [String.prototype.trim] removes. *)
Definition isWhiteSpace (c : Z) : bool :=
  ((0x0009 <=? c) && (c <=? 0x000D))
  || (c =? 0x0020) || (c =? 0x00A0) || (c =? 0x1680)
  || ((0x2000 <=? c) && (c <=? 0x200A))
  || (c =? 0x2028) || (c =? 0x2029) || (c =? 0x202F)
  || (c =? 0x205F) || (c =? 0x3000) || (c =? 0xFEFF).

Fixpoint trimStart (s : jsstring) : jsstring :=
  match s with
  | [] => []
  | c :: r => if isWhiteSpace c then trimStart r else s
  end.

Definition trimEnd (s : jsstring) : jsstring := rev (trimStart (rev s)).

(** [s.trim()] *)
Definition trim (s : jsstring) : jsstring := trimEnd (trimStart s).

(** JavaScript truthiness of a string: non-empty. *)
Definition truthy (s : jsstring) : bool :=
  match s with [] => false | _ :: _ => true end.

(** Truthiness of a value that may be [undefined] or [null]. *)
Definition truthyO (o : option jsstring) : bool :=
  match o with Some s => truthy s | None => false end.

(** [a === b] on strings. *)
Definition streq (a b : jsstring) : bool := bool_decide (a = b).

(** [s.split(sep)] for a separator of one code unit; never empty. *)
Fixpoint split (sep : Z) (s : jsstring) : list jsstring :=
  match s with
  | [] => [[]]
  | c :: r =>
      if c =? sep then [] :: split sep r
      else match split sep r with
           | f :: fs => (c :: f) :: fs
           | [] => [[c]]
           end
  end.

(** [csv.split(/\r?\n/)]: a line ends at LF or at CR LF; a CR that no LF
    follows stays in its line. *)
Fixpoint splitLines (s : jsstring) : list jsstring :=
  match s with
  | [] => [[]]
  | c :: r =>
      let keep := match splitLines r with
                  | l :: ls => (c :: l) :: ls
                  | [] => [[c]]
                  end in
      if c =? LF then [] :: splitLines r
      else if c =? CR then
        match r with
        | d :: r' => if d =? LF then [] :: splitLines r' else keep
        | [] => keep
        end
      else keep
  end.

Definition stripLeadingQuote (s : jsstring) : jsstring :=
  match s with
  | c :: r => if c =? QUOTE then r else s
  | [] => []
  end.

Definition stripTrailingQuote (s : jsstring) : jsstring :=
  rev (stripLeadingQuote (rev s)).

(** [s.replace(/^"|"$/g, '')]: one quote off the front, one off the end of
    what is left. *)
Definition stripQuotes (s : jsstring) : jsstring :=
  stripTrailingQuote (stripLeadingQuote s).

(** [line.split(',').map(s => s.replace(/^"|"$/g, '').trim())] *)
Definition fieldsOf (line : jsstring) : list jsstring :=
  map (fun s => trim (stripQuotes s)) (split COMMA line).

(** [const [src, tgt] = ...]: the first field is always there, the second
    is [undefined] when the line has no comma. *)
Definition srcOf (line : jsstring) : jsstring := hd [] (fieldsOf line).
Definition tgtOf (line : jsstring) : option jsstring := fieldsOf line !! 1%nat.

(** What Node writes for a string: UTF-8 has no encoding of a lone
    surrogate, which goes to disk (and comes back) as U+FFFD. *)
Definition isHighSurrogate (c : Z) : bool := (0xD800 <=? c) && (c <=? 0xDBFF).
Definition isLowSurrogate (c : Z) : bool := (0xDC00 <=? c) && (c <=? 0xDFFF).

Fixpoint toWellFormed (s : jsstring) : jsstring :=
  match s with
  | [] => []
  | c :: r =>
      if isHighSurrogate c then
        match r with
        | d :: r' =>
            if isLowSurrogate d then c :: d :: toWellFormed r'
            else 0xFFFD :: toWellFormed r
        | [] => [0xFFFD]
        end
      else if isLowSurrogate c then 0xFFFD :: toWellFormed r
      else c :: toWellFormed r
  end.

(** ** Language detector ([detectLanguage], translate.js) *)

(** [regex.test(text)] for a character class that is one range. *)
Definition testRange (lo hi : Z) (text : jsstring) : bool :=
  existsb (fun c => (lo <=? c) && (c <=? hi)) text.

Definition hindiRegex : jsstring -> bool := testRange 0x0900 0x097F.
Definition marathiRegex : jsstring -> bool := testRange 0x0900 0x097F.
Definition teluguRegex : jsstring -> bool := testRange 0x0C00 0x0C7F.
Definition tamilRegex : jsstring -> bool := testRange 0x0B80 0x0BFF.

Record Detection := { language : string; confidence : Q }.

Definition detectLanguage (text : jsstring) : Detection :=
  if tamilRegex text then {| language := "ta"; confidence := 1%Q |}
  else if teluguRegex text then {| language := "te"; confidence := 1%Q |}
  else if hindiRegex text then {| language := "hi"; confidence := 0.8%Q |}
  else {| language := "en"; confidence := 0.5%Q |}.

(** ** The host: everything the program asks of its environment *)

Inductive Error :=
| ENOENT          (* no such file *)
| EIO             (* any other failure of a file operation *)
| LoadFailed      (* the pipeline promise rejects *)
| ModelFailed     (* the model invocation throws *)
| PreprocessFailed.

(** What [translator(text, {src_lang, tgt_lang})] does: it throws, or it
    returns an array whose first element may be missing or may lack
    [translation_text]. *)
Inductive ModelOutput :=
| ModelThrows
| ModelReturns (translation_text : option jsstring).

Record Flags := { hadShortforms : bool; hadSlang : bool; hadSarcasm : bool }.

(** What the model is handed as [src_lang] or [tgt_lang]: a code of
    [nllbLangMap], or what the lookup [nllbLangMap[lang]] found under the
    key [lang] on [Object.prototype] (a function, or for [__proto__] the
    prototype object), which is no code at all. *)
Inductive LangArg :=
| NllbCode (code : string)
| Inherited (key : string).

Record Host := {
  (** [String.prototype.toLowerCase] *)
  toLowerCase : jsstring -> jsstring;
  (** [preprocessText] of [utils/preprocess]; [None] when it throws *)
  preprocessText : jsstring -> option (jsstring * Flags);
  (** which file operations fail *)
  readdirFails : bool;
  readFails : string -> bool;
  appendFails : string -> bool;
  writeFails : string -> bool;
  (** what a failing [appendFileSync] or [writeFileSync] of some data has
      put into the file by the time it throws: [None] when it throws
      before the file is opened, otherwise the part that reached the file
      (nothing, or the beginning of the data as the file then decodes) *)
  appendLeaves : string -> jsstring -> option jsstring;
  writeLeaves : string -> jsstring -> option jsstring;
  (** whether [pipeline('translation', ...)] resolves *)
  pipelineResolves : bool;
  (** the loaded NLLB-200 model, a function of its input: the same text
      and codes get the same answer *)
  model : jsstring -> LangArg -> LangArg -> ModelOutput
}.

(** Lower-casing maps the empty string, and nothing else, to the empty
    string; the Unicode case mappings have this property. *)
Definition lowerKeepsEmptiness (h : Host) : Prop :=
  forall s, toLowerCase h s = [] <-> s = [].

(** A host on which no file operation fails. *)
Definition ioHealthy (h : Host) : Prop :=
  readdirFails h = false
  /\ (forall f, readFails h f = false)
  /\ (forall f, appendFails h f = false)
  /\ (forall f, writeFails h f = false).

(** ** Program state, trace and the monad *)

Inductive Event :=
| EvReaddir                                   (* fs.readdirSync(data) *)
| EvExists (f : string)                       (* fs.existsSync *)
| EvRead (f : string)                         (* fs.readFileSync *)
| EvAppend (f : string) (data : jsstring)     (* fs.appendFileSync *)
| EvWrite (f : string) (data : jsstring)      (* fs.writeFileSync *)
| EvPipeline                                  (* pipeline(...): a model load *)
| EvTranslate (text : jsstring) (src_lang tgt_lang : LangArg).

(** [modelCache] of localTranslator.js: is [translator] set, is
    [translatorPromise] set. *)
Record ModelCache := { translator : bool; translatorPromise : bool }.

Record State := {
  files : gmap string jsstring;   (* the ../data directory *)
  modelCache : ModelCache;
  trace : list Event              (* most recent first *)
}.

Inductive Result (A : Type) :=
| Ok (a : A)
| Throw (e : Error).
Arguments Ok {A} a.
Arguments Throw {A} e.

Definition M (A : Type) : Type := State -> Result A * State.

#[global] Instance M_ret : MRet M := fun A a st => (Ok a, st).

#[global] Instance M_bind : MBind M := fun A B f m st =>
  match m st with
  | (Ok a, st') => f a st'
  | (Throw e, st') => (Throw e, st')
  end.

Definition throw {A} (e : Error) : M A := fun st => (Throw e, st).

(** [try { m } catch (err) { handler }] *)
Definition tryCatch {A} (m : M A) (handler : Error -> M A) : M A := fun st =>
  match m st with
  | (Ok a, st') => (Ok a, st')
  | (Throw e, st') => handler e st'
  end.

Definition emit (e : Event) : M unit := fun st =>
  (Ok tt, {| files := files st; modelCache := modelCache st;
             trace := e :: trace st |}).

Definition getFiles : M (gmap string jsstring) := fun st => (Ok (files st), st).

Definition putFiles (fs : gmap string jsstring) : M unit := fun st =>
  (Ok tt, {| files := fs; modelCache := modelCache st; trace := trace st |}).

Definition getModelCache : M ModelCache := fun st => (Ok (modelCache st), st).

Definition putModelCache (mc : ModelCache) : M unit := fun st =>
  (Ok tt, {| files := files st; modelCache := mc; trace := trace st |}).

(** ** File system calls

    All files live in the one directory [../data]; a file is named by its
    entry in that directory (language codes are taken to hold no path
    separator).  A call is recorded in the trace before its outcome is
    known.  A read that fails changes nothing.  [appendFileSync] and
    [writeFileSync] open the file (flags [a] and [w]: the file is
    created if it is missing, and with [w] emptied) and then write: a
    call that fails before the file is open changes nothing, one that
    fails later leaves the file with what had reached it. *)

Definition readdirSync (h : Host) : M (gset string) :=
  emit EvReaddir;;
  fs ← getFiles;
  if readdirFails h then throw EIO else mret (dom fs).

Definition existsSync (f : string) : M bool :=
  emit (EvExists f);;
  fs ← getFiles;
  mret (bool_decide (is_Some (fs !! f))).

Definition readFileSync (h : Host) (f : string) : M jsstring :=
  emit (EvRead f);;
  fs ← getFiles;
  match fs !! f with
  | None => throw ENOENT
  | Some content => if readFails h f then throw EIO else mret content
  end.

(** The directory after [data] is appended to [f]; a missing file is
    created. *)
Definition appended (fs : gmap string jsstring) (f : string)
    (data : jsstring) : gmap string jsstring :=
  <[f := default [] (fs !! f) ++ toWellFormed data]> fs.

(** The directory after a call on [f] has failed: [kept] is what the
    open left of the file, [reached] what was written after it. *)
Definition afterFailure (fs : gmap string jsstring) (f : string)
    (kept : jsstring) (reached : option jsstring) : gmap string jsstring :=
  match reached with
  | None => fs
  | Some part => <[f := kept ++ part]> fs
  end.

Definition appendFileSync (h : Host) (f : string) (data : jsstring) : M unit :=
  emit (EvAppend f data);;
  fs ← getFiles;
  if appendFails h f then
    putFiles (afterFailure fs f (default [] (fs !! f)) (appendLeaves h f data));;
    throw EIO
  else putFiles (appended fs f data).

Definition writeFileSync (h : Host) (f : string) (data : jsstring) : M unit :=
  emit (EvWrite f data);;
  fs ← getFiles;
  if writeFails h f then
    putFiles (afterFailure fs f [] (writeLeaves h f data));;
    throw EIO
  else putFiles (<[f := toWellFormed data]> fs).

(** ** CSV tables: idioms and phrases *)

(** The loop shared by [lookupCulturalIdiom] and [getPhraseFromCSV]:
    the target of the first line whose source and target are both
    non-empty and whose source, lower-cased, is [key]. *)
Fixpoint findPhrase (h : Host) (lines : list jsstring) (key : jsstring)
  : option jsstring :=
  match lines with
  | [] => None
  | line :: rest =>
      if truthy (srcOf line) && truthyO (tgtOf line)
         && streq (toLowerCase h (srcOf line)) key
      then tgtOf line
      else findPhrase h rest key
  end.

(** The loop of the route's CSV update: is there a line whose source is
    non-empty and, lower-cased, is [key]; the target is not looked at. *)
Definition sourceListed (h : Host) (lines : list jsstring) (key : jsstring)
  : bool :=
  existsb (fun line => truthy (srcOf line)
                       && streq (toLowerCase h (srcOf line)) key) lines.

(** The idiom file of a directed pair: the eight pairs with English.  The
    source tests the pairs one after the other; no two hold together. *)
Definition idiomFileOf (sourceLang targetLang : string) : option string :=
  let dir (a b : string) := String.eqb sourceLang a && String.eqb targetLang b in
  if dir "en" "hi" then Some "en-hi-idioms.csv"
  else if dir "en" "mr" then Some "en-mr-idioms.csv"
  else if dir "en" "ta" then Some "en-ta-idioms.csv"
  else if dir "en" "te" then Some "en-te-idioms.csv"
  else if dir "mr" "en" then Some "mr-en-idioms.csv"
  else if dir "hi" "en" then Some "hi-en-idioms.csv"
  else if dir "ta" "en" then Some "ta-en-idioms.csv"
  else if dir "te" "en" then Some "te-en-idioms.csv"
  else None.

Definition lookupCulturalIdiom (h : Host) (text : jsstring)
    (sourceLang targetLang : string) : M (option jsstring) :=
  let input := toLowerCase h (trim text) in
  match idiomFileOf sourceLang targetLang with
  | None => mret None
  | Some idiomFile =>
      tryCatch
        (csv ← readFileSync h idiomFile;
         mret (findPhrase h (splitLines csv) input))
        (fun _ => mret None)
  end.

(** The name of the phrase file of a directed pair. *)
Definition csvFileOf (sourceLang targetLang : string) : string :=
  sourceLang +:+ "-" +:+ targetLang +:+ ".csv".

Definition getPhraseFromCSV (h : Host) (text : jsstring)
    (sourceLang targetLang : string) : M (option jsstring) :=
  tryCatch
    (dir ← readdirSync h;
     let pairFile := csvFileOf sourceLang targetLang in
     if bool_decide (pairFile ∈ dir) then
       csv ← readFileSync h pairFile;
       mret (findPhrase h (splitLines csv) (toLowerCase h (trim text)))
     else mret None)
    (fun _ => mret None).

(** ** The local engine (localTranslator.js) *)

(** The own properties of [nllbLangMap]. *)
Definition nllbLangMap : gmap string string :=
  list_to_map [("en", "eng_Latn"); ("hi", "hin_Deva"); ("mr", "mar_Deva");
               ("ta", "tam_Taml"); ("te", "tel_Telu")]%string.

(** The properties a plain object such as [nllbLangMap] inherits from
    [Object.prototype]; each is a function or an object, and so truthy. *)
Definition objectPrototype : list string :=
  ["constructor"; "__defineGetter__"; "__defineSetter__"; "hasOwnProperty";
   "__lookupGetter__"; "__lookupSetter__"; "isPrototypeOf";
   "propertyIsEnumerable"; "toString"; "valueOf"; "__proto__";
   "toLocaleString"]%string.

(** [nllbLangMap[lang] || 'eng_Latn']: the own property if there is one,
    else the inherited one, else the English code. *)
Definition nllbCode (lang : string) : LangArg :=
  match nllbLangMap !! lang with
  | Some code => NllbCode code
  | None =>
      if bool_decide (lang ∈ objectPrototype) then Inherited lang
      else NllbCode "eng_Latn"
  end.

(** [loadModel]: the pipeline is built when neither the translator nor
    its promise is cached; a rejected promise stays cached. *)
Definition loadModel (h : Host) : M unit :=
  mc ← getModelCache;
  if translator mc then mret tt
  else
    (if translatorPromise mc then mret tt
     else emit EvPipeline;;
          putModelCache {| translator := false; translatorPromise := true |});;
    if pipelineResolves h
    then putModelCache {| translator := true; translatorPromise := true |}
    else throw LoadFailed.

(** [await translator(text, { src_lang, tgt_lang })] *)
Definition invokeModel (h : Host) (text : jsstring) (src tgt : LangArg)
  : M (option jsstring) :=
  emit (EvTranslate text src tgt);;
  match model h text src tgt with
  | ModelThrows => throw ModelFailed
  | ModelReturns o => mret o
  end.

Definition localTranslate (h : Host) (text : jsstring)
    (sourceLang targetLang : string) : M jsstring :=
  loadModel h;;
  let src := nllbCode sourceLang in
  let tgt := nllbCode targetLang in
  result ← invokeModel h text src tgt;
  mret (if truthyO result then default text result else text).

(** ** The orchestrator ([translateText], translate.js) *)

(** The options object a caller may pass in place of the target code. *)
Record Options := {
  optTargetLanguage : option string;
  optSourceLanguage : option string;
  optCulturalAdaptation : bool
}.

(** The second argument: missing, a language code, or an options object. *)
Inductive Arg2 :=
| Undefined
| Code (targetLanguage : string)
| Opts (options : Options).

(** [x || 'en'] for a string that may be missing. *)
Definition orEn (o : option string) : string :=
  match o with
  | Some s => if String.eqb s "" then "en" else s
  | None => "en"
  end%string.

(** The default parameters and the [typeof targetLanguage === 'object']
    branch: the target and the source language the body works with. *)
Definition languagesOf (a2 : Arg2) (a3 : option string) : string * string :=
  match a2 with
  | Opts options =>
      (orEn (optTargetLanguage options), orEn (optSourceLanguage options))
  | Code targetLanguage => (targetLanguage, default "en"%string a3)
  | Undefined => ("en"%string, default "en"%string a3)
  end.

(** The two promises of the engine branch: a direct translation when one
    end is English, otherwise source to English and English to target. *)
Definition localPromise (h : Host) (text : jsstring)
    (sourceLanguage targetLanguage : string) : M jsstring :=
  if String.eqb sourceLanguage "en" || String.eqb targetLanguage "en" then
    localTranslate h text sourceLanguage targetLanguage
  else
    intermediate ← localTranslate h text sourceLanguage "en";
    localTranslate h intermediate "en" targetLanguage.

(** [localResult.trim().toLowerCase() !== text.trim().toLowerCase()] *)
Definition differs (h : Host) (a b : jsstring) : bool :=
  negb (streq (toLowerCase h (trim a)) (toLowerCase h (trim b))).

Definition translateText (h : Host) (text : jsstring) (a2 : Arg2)
    (a3 : option string) : M jsstring :=
  let '(targetLanguage, sourceLanguage) := languagesOf a2 a3 in
  if negb (truthy text) || negb (truthy (trim text))
     || String.eqb sourceLanguage targetLanguage
  then mret text
  else
    idiom ← lookupCulturalIdiom h text sourceLanguage targetLanguage;
    if truthyO idiom then mret (default text idiom)
    else
      phrase ← getPhraseFromCSV h text sourceLanguage targetLanguage;
      localResult ← localPromise h text sourceLanguage targetLanguage;
      if truthyO phrase then mret (default text phrase)
      else if truthy localResult && differs h localResult text
      then mret localResult
      else mret text.

(** ** The route ([POST /], routes/translation.js)

    The handler as it runs once the [auth] and [validateRequest]
    middlewares have let the request through: the body carries a text and
    a target language code, both strings. *)

Record Request := {
  reqText : jsstring;
  reqTargetLanguage : string;
  reqEnablePreprocessing : option bool   (* defaults to [true] *)
}.

Record Response := {
  status : Z;
  message : option string;
  error : option Error;
  original : jsstring;
  preprocessed : jsstring;
  translated : jsstring;
  targetLanguage : string;
  respConfidence : option Q;
  preprocessing : Flags;
  detectedLanguage : string
}.

Definition noFlags : Flags :=
  {| hadShortforms := false; hadSlang := false; hadSarcasm := false |}.

(** The line the route writes: ["<source>","<target>"\n], both trimmed. *)
Definition csvRecord (processedText translatedText : jsstring) : jsstring :=
  [QUOTE] ++ trim processedText ++ [QUOTE; COMMA; QUOTE]
  ++ trim translatedText ++ [QUOTE; LF].

(** The CSV update of the route (lines 41-73). *)
Definition csvUpdateTry (h : Host) (csvPath : string)
    (processedText translatedText : jsstring) : M unit :=
  ex ← existsSync csvPath;
  found ← (if ex : bool then
             csv ← readFileSync h csvPath;
             mret (sourceListed h (splitLines csv)
                     (toLowerCase h (trim processedText)))
           else mret false);
  if found : bool then mret tt
  else appendFileSync h csvPath (csvRecord processedText translatedText).

Definition csvUpdate (h : Host) (processedText translatedText : jsstring)
    (detected target : string) : M unit :=
  if truthy translatedText && differs h translatedText processedText then
    let csvPath := csvFileOf detected target in
    tryCatch
      (csvUpdateTry h csvPath processedText translatedText)
      (fun _ => writeFileSync h csvPath (csvRecord processedText translatedText))
  else mret tt.

(** The preprocessing step: on by default. *)
Definition preprocessStep (h : Host) (req : Request) : M (jsstring * Flags) :=
  if default true (reqEnablePreprocessing req) then
    match preprocessText h (reqText req) with
    | Some r => mret r
    | None => throw PreprocessFailed
    end
  else mret (reqText req, noFlags).

(** [detectionResult.language || 'en'] *)
Definition detectedOf (processedText : jsstring) : string :=
  let l := language (detectLanguage processedText) in
  if String.eqb l "" then "en"%string else l.

(** The answer [res.json] sends when nothing was thrown;
    [translationResult.confidence] is undefined. *)
Definition okResponse (req : Request) (processedText : jsstring)
    (preprocessingFlags : Flags) (translatedText : jsstring)
    (detected : string) : Response :=
  {| status := 200; message := None; error := None;
     original := reqText req; preprocessed := processedText;
     translated := translatedText;
     targetLanguage := reqTargetLanguage req;
     respConfidence := None;
     preprocessing := preprocessingFlags;
     detectedLanguage := detected |}.

(** The body of the handler's [try]. *)
Definition routeTry (h : Host) (req : Request) : M Response :=
  '(processedText, preprocessingFlags) ← preprocessStep h req;
  let detected := detectedOf processedText in
  translatedText ←
    translateText h processedText (Code (reqTargetLanguage req)) (Some detected);
  csvUpdate h processedText translatedText detected (reqTargetLanguage req);;
  mret (okResponse req processedText preprocessingFlags translatedText detected).

(** The handler's [catch]: status 500 with the request text as the
    translation. *)
Definition fallbackResponse (req : Request) (e : Error) : Response :=
  {| status := 500; message := Some "Translation failed"%string;
     error := Some e;
     original := reqText req; preprocessed := reqText req;
     translated := reqText req;
     targetLanguage := reqTargetLanguage req;
     respConfidence := Some 0%Q;
     preprocessing := noFlags;
     detectedLanguage := "en" |}.

Definition translateRoute (h : Host) (req : Request) (st : State)
  : Response * State :=
  match routeTry h req st with
  | (Ok r, st') => (r, st')
  | (Throw e, st') => (fallbackResponse req e, st')
  end.

(** ** What the lookups and the engine compute

    The values of the effectful functions above as functions of the files
    and of the model cache.  Part II proves that the effectful functions
    return these values. *)

(** The content [readFileSync] returns, when it returns. *)
Definition readOf (h : Host) (fs : gmap string jsstring) (f : string)
  : option jsstring :=
  match fs !! f with
  | Some content => if readFails h f then None else Some content
  | None => None
  end.

(** The idiom-table entry of a text for a directed pair. *)
Definition idiomOf (h : Host) (fs : gmap string jsstring) (text : jsstring)
    (sourceLang targetLang : string) : option jsstring :=
  idiomFile ← idiomFileOf sourceLang targetLang;
  csv ← readOf h fs idiomFile;
  findPhrase h (splitLines csv) (toLowerCase h (trim text)).

(** The phrase-cache entry of a text for a directed pair. *)
Definition phraseOf (h : Host) (fs : gmap string jsstring) (text : jsstring)
    (sourceLang targetLang : string) : option jsstring :=
  if readdirFails h then None
  else csv ← readOf h fs (csvFileOf sourceLang targetLang);
       findPhrase h (splitLines csv) (toLowerCase h (trim text)).

(** Does the pair's phrase file list the text as a source, in the eyes of
    the route's update step. *)
Definition phraseListed (h : Host) (fs : gmap string jsstring)
    (text : jsstring) (sourceLang targetLang : string) : bool :=
  match fs !! csvFileOf sourceLang targetLang with
  | Some csv =>
      sourceListed h (splitLines csv) (toLowerCase h (trim text))
  | None => false
  end.

(** What one [localTranslate] returns once the model is loaded. *)
Definition answerOf (h : Host) (text : jsstring)
    (sourceLang targetLang : string) : Result jsstring :=
  match model h text (nllbCode sourceLang) (nllbCode targetLang) with
  | ModelThrows => Throw ModelFailed
  | ModelReturns o => Ok (if truthyO o then default text o else text)
  end.

(** What the engine branch of [translateText] produces. *)
Definition engineOf (h : Host) (mc : ModelCache) (text : jsstring)
    (sourceLanguage targetLanguage : string) : Result jsstring :=
  if translator mc || pipelineResolves h then
    if String.eqb sourceLanguage "en" || String.eqb targetLanguage "en" then
      answerOf h text sourceLanguage targetLanguage
    else
      match answerOf h text sourceLanguage "en" with
      | Ok intermediate => answerOf h intermediate "en" targetLanguage
      | Throw e => Throw e
      end
  else Throw LoadFailed.

(** The events of one phrase lookup, most recent first. *)
Definition phraseReads (h : Host) (fs : gmap string jsstring)
    (sourceLang targetLang : string) : list Event :=
  if readdirFails h then [EvReaddir]
  else if bool_decide (csvFileOf sourceLang targetLang ∈ dom fs)
       then [EvRead (csvFileOf sourceLang targetLang); EvReaddir]
       else [EvReaddir].

(** The events of one idiom lookup. *)
Definition idiomReads (sourceLang targetLang : string) : list Event :=
  match idiomFileOf sourceLang targetLang with
  | Some f => [EvRead f]
  | None => []
  end.

(** The events of one [loadModel], and the model cache after it. *)
Definition loadEvents (mc : ModelCache) : list Event :=
  if translator mc || translatorPromise mc then [] else [EvPipeline].

Definition cacheAfterLoad (h : Host) (mc : ModelCache) : ModelCache :=
  if translator mc then mc
  else {| translator := pipelineResolves h; translatorPromise := true |}.

(** The state after the engine ran: model cache updated, events added. *)
Definition engineState (h : Host) (evs : list Event) (st : State) : State :=
  {| files := files st; modelCache := cacheAfterLoad h (modelCache st);
     trace := evs ++ trace st |}.

(** The state with more events in its trace. *)
Definition addEvents (evs : list Event) (st : State) : State :=
  {| files := files st; modelCache := modelCache st;
     trace := evs ++ trace st |}.

(** The model invocations of a trace, oldest first. *)
Definition invocations (tr : list Event)
  : list (jsstring * LangArg * LangArg) :=
  rev (omap (fun e => match e with
                      | EvTranslate text s t => Some (text, s, t)
                      | _ => None
                      end) tr).

(** The number of times the model was invoked. *)
Definition engineCalls (st : State) : nat := length (invocations (trace st)).

(** The number of model loads. *)
Definition modelLoads (st : State) : nat :=
  length (omap (fun e => match e with EvPipeline => Some tt | _ => None end)
            (trace st)).

(** A field the two-column format carries unharmed: no comma, no line
    feed, and no surrogate that is not half of a pair (the field goes to
    disk as it is). *)
Definition plain (s : jsstring) : bool :=
  forallb (fun c => negb (c =? COMMA) && negb (c =? LF)) s
  && streq (toWellFormed s) s.

(** A file to which a record can be appended on a line of its own: empty,
    or ending in a line feed. *)
Definition endsLine (content : jsstring) : bool :=
  match rev content with
  | [] => true
  | c :: _ => c =? LF
  end.

(** ** Concrete hosts and states, for running the definitions *)

(** Lower-casing of the ASCII letters; on strings without other cased
    letters this is what [toLowerCase] computes. *)
Definition lowerAscii (s : jsstring) : jsstring :=
  map (fun c => if (0x41 <=? c) && (c <=? 0x5A) then c + 32 else c) s.

(** A host with working files and a model given by a table: a text the
    table lacks comes back unchanged. *)
Definition tableHost (table : list (jsstring * jsstring)) : Host :=
  {| toLowerCase := lowerAscii;
     preprocessText := fun s => Some (s, noFlags);
     readdirFails := false;
     readFails := fun _ => false;
     appendFails := fun _ => false;
     writeFails := fun _ => false;
     appendLeaves := fun _ _ => None;
     writeLeaves := fun _ _ => None;
     pipelineResolves := true;
     model := fun text _ _ =>
       ModelReturns
         (Some match list_find (fun p => bool_decide (p.1 = text)) table with
               | Some (_, p) => p.2
               | None => text
               end) |}.

(** The same host with a model that cannot be loaded. *)
Definition noEngineHost : Host :=
  {| toLowerCase := lowerAscii;
     preprocessText := fun s => Some (s, noFlags);
     readdirFails := false;
     readFails := fun _ => false;
     appendFails := fun _ => false;
     writeFails := fun _ => false;
     appendLeaves := fun _ _ => None;
     writeLeaves := fun _ _ => None;
     pipelineResolves := false;
     model := fun _ _ _ => ModelThrows |}.

(** A host whose data directory is read-only: appending and writing fail
    before any file is opened. *)
Definition readOnlyHost (table : list (jsstring * jsstring)) : Host :=
  {| toLowerCase := lowerAscii;
     preprocessText := fun s => Some (s, noFlags);
     readdirFails := false;
     readFails := fun _ => false;
     appendFails := fun _ => true;
     writeFails := fun _ => true;
     appendLeaves := fun _ _ => None;
     writeLeaves := fun _ _ => None;
     pipelineResolves := true;
     model := model (tableHost table) |}.

(** A host on which appending fails and writing a whole file works. *)
Definition noAppendHost (table : list (jsstring * jsstring)) : Host :=
  {| toLowerCase := lowerAscii;
     preprocessText := fun s => Some (s, noFlags);
     readdirFails := false;
     readFails := fun _ => false;
     appendFails := fun _ => true;
     writeFails := fun _ => false;
     appendLeaves := fun _ _ => None;
     writeLeaves := fun _ _ => None;
     pipelineResolves := true;
     model := model (tableHost table) |}.

(** A host whose disk is full: appending and writing fail once the file
    is open, and nothing of the data reaches it. *)
Definition fullDiskHost (table : list (jsstring * jsstring)) : Host :=
  {| toLowerCase := lowerAscii;
     preprocessText := fun s => Some (s, noFlags);
     readdirFails := false;
     readFails := fun _ => false;
     appendFails := fun _ => true;
     writeFails := fun _ => true;
     appendLeaves := fun _ _ => Some [];
     writeLeaves := fun _ _ => Some [];
     pipelineResolves := true;
     model := model (tableHost table) |}.

(** A request for Hindi that skips preprocessing. *)
Definition toHindi (text : jsstring) : Request :=
  {| reqText := text; reqTargetLanguage := "hi";
     reqEnablePreprocessing := Some false |}.

Definition freshState (fs : gmap string jsstring) : State :=
  {| files := fs;
     modelCache := {| translator := false; translatorPromise := false |};
     trace := [] |}.

(** "good morning" in Hindi and "hello" in Hindi, as code units. *)
Definition suprabhat : jsstring :=
  [0x938; 0x941; 0x92A; 0x94D; 0x930; 0x92D; 0x93E; 0x924].
Definition namaste : jsstring :=
  [0x928; 0x92E; 0x938; 0x94D; 0x924; 0x947].
Definition namaskar : jsstring :=
  [0x928; 0x92E; 0x938; 0x94D; 0x915; 0x93E; 0x930].

(** An idiom table for English to Hindi with one entry. *)
Definition idiomFiles : gmap string jsstring :=
  {[ "en-hi-idioms.csv"%string :=
       [QUOTE] ++ js "good morning" ++ [QUOTE; COMMA; QUOTE] ++ suprabhat
       ++ [QUOTE; LF] ]}.

(** A phrase cache for English to Hindi with one entry. *)
Definition phraseFiles : gmap string jsstring :=
  {[ "en-hi.csv"%string :=
       [QUOTE] ++ js "hello" ++ [QUOTE; COMMA; QUOTE] ++ namaste
       ++ [QUOTE; LF] ]}.

(** ** Concurrent calls of [loadModel] on the event loop

    JavaScript runs one callback at a time: a call of the async function
    [loadModel] runs without interruption up to its [await], and again
    from the [await] to its [return] once the awaited promise is settled.
    An execution is a sequence of such atomic actions, in any order the
    event loop may choose.  Promises of [pipeline] are numbered in the
    order of the calls that made them, and the model instance a promise
    delivers carries the number of its promise. *)

Module EventLoop.

(** Where a call of [loadModel] stands. *)
Inductive Caller :=
| Called                 (* made, not yet run *)
| Awaiting (p : nat)     (* suspended at [await], on promise [p] *)
| Returned (m : nat)     (* returned model instance [m] *)
| Rejected.              (* the awaited promise rejected *)

Inductive Promise := Pending | Fulfilled | Failed.

Record Loop := {
  cachedTranslator : option nat;   (* modelCache.translator *)
  cachedPromise : option nat;      (* modelCache.translatorPromise *)
  promises : list Promise;         (* one per call of [pipeline] *)
  callers : list Caller
}.

(** The number of model loads: calls of [pipeline]. *)
Definition loads (s : Loop) : nat := length (promises s).

Inductive Action :=
| Run (i : nat)                  (* caller [i] runs up to its [await] *)
| Settle (p : nat) (ok : bool)   (* promise [p] fulfils or rejects *)
| Resume (i : nat).              (* caller [i] runs on from its [await] *)

Definition setCaller (i : nat) (c : Caller) (s : Loop) : Loop :=
  {| cachedTranslator := cachedTranslator s;
     cachedPromise := cachedPromise s;
     promises := promises s;
     callers := <[i := c]> (callers s) |}.

(** One atomic action; [None] when the action is not enabled. *)
Definition step (a : Action) (s : Loop) : option Loop :=
  match a with
  | Run i =>
      match callers s !! i with
      | Some Called =>
          match cachedTranslator s with
          | Some m => Some (setCaller i (Returned m) s)
          | None =>
              match cachedPromise s with
              | Some p => Some (setCaller i (Awaiting p) s)
              | None =>
                  let p := length (promises s) in
                  Some {| cachedTranslator := None;
                          cachedPromise := Some p;
                          promises := promises s ++ [Pending];
                          callers := <[i := Awaiting p]> (callers s) |}
              end
          end
      | _ => None
      end
  | Settle p ok =>
      match promises s !! p with
      | Some Pending =>
          Some {| cachedTranslator := cachedTranslator s;
                  cachedPromise := cachedPromise s;
                  promises := <[p := if ok then Fulfilled else Failed]>
                                (promises s);
                  callers := callers s |}
      | _ => None
      end
  | Resume i =>
      match callers s !! i with
      | Some (Awaiting p) =>
          match promises s !! p with
          | Some Fulfilled =>
              Some {| cachedTranslator := Some p;
                      cachedPromise := cachedPromise s;
                      promises := promises s;
                      callers := <[i := Returned p]> (callers s) |}
          | Some Failed => Some (setCaller i Rejected s)
          | _ => None
          end
      | _ => None
      end
  end.

Fixpoint exec (acts : list Action) (s : Loop) : option Loop :=
  match acts with
  | [] => Some s
  | a :: rest =>
      match step a s with
      | Some s' => exec rest s'
      | None => None
      end
  end.

(** [n] calls against an engine that has not been loaded. *)
Definition unloaded (n : nat) : Loop :=
  {| cachedTranslator := None; cachedPromise := None; promises := [];
     callers := replicate n Called |}.

(** Has some call started. *)
Definition started (s : Loop) : Prop :=
  exists i c, callers s !! i = Some c /\ c <> Called.

(** What the cache says about a call, by where the call stands. *)
Definition callerOk (tr pr : option nat) (c : Caller) : Prop :=
  match c with
  | Called => True
  | Awaiting p => pr = Some p
  | Returned m => tr = Some m
  | Rejected => is_Some pr
  end.

(** The invariant of the executions that start unloaded: nothing is
    cached before the first call runs, and afterwards the one promise and
    the one instance are those of the first call of [pipeline]. *)
Definition consistent (s : Loop) : Prop :=
  (cachedPromise s = None ->
   promises s = [] /\ cachedTranslator s = None
   /\ Forall (fun c => c = Called) (callers s))
  /\ (forall p, cachedPromise s = Some p ->
                p = 0%nat /\ length (promises s) = 1%nat)
  /\ (forall m, cachedTranslator s = Some m ->
                m = 0%nat /\ cachedPromise s = Some 0%nat)
  /\ Forall (callerOk (cachedTranslator s) (cachedPromise s)) (callers s).

End EventLoop.

(** ** More of the same files: tables, the other routes, the callers *)

(** Does a line answer a lookup of [key]: the test of the lookup loops. *)
Definition lineMatches (h : Host) (key line : jsstring) : bool :=
  truthy (srcOf line) && truthyO (tgtOf line)
  && streq (toLowerCase h (srcOf line)) key.

(** The file an event is about; a directory listing names none. *)
Definition fileOf (e : Event) : option string :=
  match e with
  | EvExists f | EvRead f | EvAppend f _ | EvWrite f _ => Some f
  | EvReaddir | EvPipeline | EvTranslate _ _ _ => None
  end.

(** [languageMap] of translate.js. *)
Definition languageMap : gmap string string :=
  list_to_map [("en", "English"); ("hi", "Hindi"); ("mr", "Marathi");
               ("te", "Telugu"); ("ta", "Tamil")]%string.

(** [getSupportedLanguages] of translate.js: code and name. *)
Definition getSupportedLanguages : list (string * string) :=
  [("en", "English"); ("hi", "Hindi"); ("mr", "Marathi");
   ("te", "Telugu"); ("ta", "Tamil")]%string.

Record LanguageEntry := {
  langCode : string;
  langName : string;
  nativeName : jsstring
}.

(** The list [GET /languages] answers with (routes/translation.js). *)
Definition supportedLanguages : list LanguageEntry :=
  [ {| langCode := "en"; langName := "English"; nativeName := js "English" |};
    {| langCode := "mr"; langName := "Marathi";
       nativeName := [0x92E; 0x930; 0x93E; 0x920; 0x940] |};
    {| langCode := "hi"; langName := "Hindi";
       nativeName := [0x939; 0x93F; 0x902; 0x926; 0x940] |};
    {| langCode := "te"; langName := "Telugu";
       nativeName := [0xC24; 0xC46; 0xC32; 0xC41; 0xC17; 0xC41] |};
    {| langCode := "ta"; langName := "Tamil";
       nativeName := [0xBA4; 0xBAE; 0xBBF; 0xBB4; 0xBCD] |} ].

(** *** [POST /detect] (routes/translation.js) *)

Record DetectResponse := {
  detectStatus : Z;
  detectMessage : option string;
  detectDetected : option Detection
}.

(** The [text] of a JSON body, which no middleware has checked: a
    string, or a value that is none, of which the handler sees the
    truthiness only ([undefined], [null], [false] and [0] are falsy;
    the other numbers, [true], arrays and objects are truthy). *)
Inductive BodyText :=
| TextString (s : jsstring)
| NotAString (truthyValue : bool).

(** The handler, as it runs once [auth] has let the request through.
    [req.body] is an object, [express.json] being installed.  A truthy
    value that is no string has no method [trim]:
    the call throws a [TypeError] and the handler's [catch] answers.
    [detectLanguage] itself does not throw. *)
Definition detectRoute (text : BodyText) : DetectResponse :=
  match text with
  | TextString t =>
      if negb (truthy t) || (length (trim t) =? 0)%nat then
        {| detectStatus := 400; detectMessage := Some "Text is required"%string;
           detectDetected := None |}
      else
        {| detectStatus := 200; detectMessage := None;
           detectDetected := Some (detectLanguage t) |}
  | NotAString false =>
      {| detectStatus := 400; detectMessage := Some "Text is required"%string;
         detectDetected := None |}
  | NotAString true =>
      {| detectStatus := 500;
         detectMessage := Some "Language detection failed"%string;
         detectDetected := Some {| language := "en"; confidence := 0%Q |} |}
  end.

(** *** The sentences of a message (the [sendMessage] handler) *)

(** [.], [!] and [?] *)
Definition isTerminator (c : Z) : bool :=
  (c =? 0x2E) || (c =? 0x21) || (c =? 0x3F).

(** [text.match(/[^.!?]+[.!?]?/g)], with [cur] the run of code units
    matched so far by [[^.!?]+]: a match starts at a code unit that is no
    terminator, takes all that follow and one terminator if there is one;
    a terminator where no match is under way is skipped. *)
Fixpoint matchSentences (cur s : jsstring) : list jsstring :=
  match s with
  | [] => match cur with [] => [] | _ :: _ => [cur] end
  | c :: r =>
      if isTerminator c then
        match cur with
        | [] => matchSentences [] r
        | _ :: _ => (cur ++ [c]) :: matchSentences [] r
        end
      else matchSentences (cur ++ [c]) r
  end.

(** [text.match(...) || [text]]: [match] gives [null] when nothing
    matches. *)
Definition sentencesOf (text : jsstring) : list jsstring :=
  match matchSentences [] text with
  | [] => [text]
  | m :: ms => m :: ms
  end.

(** The class [[^.!?]] of the pattern. *)
Definition inSentence (c : Z) : bool := negb (isTerminator c).

(** *** [POST /audio/transcribe-and-translate] (routes/audio.js), the
    caller of [localTranslate] *)

(** What one poll of the transcript answers. *)
Inductive PollResult :=
| PollThrows
| PollData (status : string) (text : option jsstring)
    (language_code : option string).

(** The speech-to-text service and the upload directory, as the handler
    meets them; [None] where a request throws. *)
Record SpeechService := {
  audioExists : string -> bool;
  apiKey : option string;
  uploadAudio : string -> option string;
  requestTranscript : string -> option string;
  pollTranscript : string -> nat -> PollResult
}.

Record AudioRequest := {
  audioPath : option string;
  audioTargetLanguage : option string
}.

Inductive AudioResponse :=
| AudioRefused (status : Z) (error : string)
| AudioCaught (error : option Error)   (* the handler's [catch]: status 500 *)
| AudioOk (transcript translation : jsstring) (sourceLanguage : string).

(** Truthiness of a string that may be missing. *)
Definition truthyS (o : option string) : bool :=
  match o with
  | Some s => negb (String.eqb s "")
  | None => false
  end.

(** How the polling loop ends. *)
Inductive PollOutcome :=
| PollCompleted (text : option jsstring) (detectedLang : string)
| PollFailed
| PollExhausted
| PollError.

(** The loop [for (let i = 0; i < 20; i++)] from [i] on, [remaining]
    being [20 - i]; with the outcome comes the number of polls made. *)
Fixpoint pollLoop (poll : nat -> PollResult) (i remaining : nat)
    (detectedLang : string) : PollOutcome * nat :=
  match remaining with
  | O => (PollExhausted, i)
  | S remaining' =>
      match poll i with
      | PollThrows => (PollError, S i)
      | PollData status text language_code =>
          if String.eqb status "completed" then
            (PollCompleted text
               (if truthyS language_code then default detectedLang language_code
                else detectedLang), S i)
          else if String.eqb status "failed" then (PollFailed, S i)
          else pollLoop poll (S i) remaining' detectedLang
      end
  end.

(** [s.split('-')[0]] *)
Fixpoint beforeDash (s : string) : string :=
  match s with
  | EmptyString => EmptyString
  | String c r => if Ascii.eqb c "-" then EmptyString else String c (beforeDash r)
  end.

Definition supportedLangs : list string := ["en"; "hi"; "mr"; "ta"; "te"]%string.

Definition unsupportedMessage (sourceLang : string) : string :=
  "Language '" +:+ sourceLang
  +:+ "' not supported. Only English, Hindi, Marathi, Tamil, Telugu are allowed.".

(** The handler from the end of the polling loop on. *)
Definition finishTranscript (h : Host) (targetLanguage : string)
    (outcome : PollOutcome) : M AudioResponse :=
  match outcome with
  | PollError => mret (AudioCaught None)
  | PollFailed => mret (AudioRefused 500 "Transcription failed")
  | PollExhausted => mret (AudioRefused 500 "Transcription timed out")
  | PollCompleted text detectedLang =>
      if negb (truthyO text)
      then mret (AudioRefused 500 "Transcription timed out")
      else
        let transcriptText := default [] text in
        let sourceLang :=
          beforeDash (if String.eqb detectedLang "" then "en"
                      else detectedLang) in
        if negb (bool_decide (sourceLang ∈ supportedLangs))
        then mret (AudioRefused 400 (unsupportedMessage sourceLang))
        else
          tryCatch
            (translated ← localTranslate h transcriptText sourceLang
                            targetLanguage;
             mret (AudioOk transcriptText translated sourceLang))
            (fun e => mret (AudioCaught (Some e)))
  end.

(** The handler.  The calls to the speech service are answered by [sv]
    and leave no event in the trace, which records the data directory and
    the model only: the audio file under [uploads/messages] is probed
    through [audioExists] and read, as a stream, by [uploadAudio].  The
    three seconds between two polls are not modelled. *)
Definition transcribeAndTranslate (h : Host) (sv : SpeechService)
    (req : AudioRequest) : M AudioResponse :=
  if negb (truthyS (audioPath req)) || negb (truthyS (audioTargetLanguage req))
  then mret (AudioRefused 400 "audioPath and targetLanguage required")
  else
    let path := default ""%string (audioPath req) in
    let targetLanguage := default ""%string (audioTargetLanguage req) in
    if negb (audioExists sv path)
    then mret (AudioRefused 404 "Audio file not found")
    else if negb (truthyS (apiKey sv))
    then mret (AudioRefused 500 "STT API key not configured")
    else
      match uploadAudio sv path with
      | None => mret (AudioCaught None)
      | Some audioUrl =>
          match requestTranscript sv audioUrl with
          | None => mret (AudioCaught None)
          | Some transcriptId =>
              finishTranscript h targetLanguage
                (fst (pollLoop (pollTranscript sv transcriptId) 0 20 "en"))
          end
      end.

(** The request passes the checks and the speech service hands out the
    transcript id [transcriptId]. *)
Definition accepted (sv : SpeechService) (req : AudioRequest)
    (transcriptId : string) : Prop :=
  truthyS (audioPath req) = true
  /\ truthyS (audioTargetLanguage req) = true
  /\ audioExists sv (default ""%string (audioPath req)) = true
  /\ truthyS (apiKey sv) = true
  /\ exists audioUrl,
       uploadAudio sv (default ""%string (audioPath req)) = Some audioUrl
       /\ requestTranscript sv audioUrl = Some transcriptId.

(** *** Requests one after the other *)

(** The route run on a list of requests, each on the state the one
    before left; the answers come in the order of the requests. *)
Fixpoint serve (h : Host) (reqs : list Request) (st : State)
  : list Response * State :=
  match reqs with
  | [] => ([], st)
  | req :: rest =>
      let '(resp, st1) := translateRoute h req st in
      let '(resps, st2) := serve h rest st1 in
      (resp :: resps, st2)
  end.

(** The calls of [pipeline] among some events. *)
Definition loadsIn (evs : list Event) : nat :=
  length (omap (fun e => match e with EvPipeline => Some tt | _ => None end)
            evs).

(** All calls start before the model is there: every caller runs up to
    its [await], then the one promise fulfils, then every caller resumes. *)
Definition allAtOnce (n : nat) : list EventLoop.Action :=
  map EventLoop.Run (seq 0 n) ++ [EventLoop.Settle 0 true]
  ++ map EventLoop.Resume (seq 0 n).


(** A speech service whose transcript never leaves the queue. *)
Definition stuckService : SpeechService :=
  {| audioExists := fun _ => true;
     apiKey := Some "key"%string;
     uploadAudio := fun _ => Some "url"%string;
     requestTranscript := fun _ => Some "id"%string;
     pollTranscript := fun _ _ => PollData "queued" None None |}.

Definition audioRequest (path target : string) : AudioRequest :=
  {| audioPath := Some path; audioTargetLanguage := Some target |}.

(* ================================================================== *)
(** * Part II: properties *)
(* ================================================================== *)

(** ** The language detector *)

Lemma testRange_true lo hi (text : jsstring) :
  testRange lo hi text = true <-> Exists (fun c => lo <= c <= hi) text.
Proof.
  unfold testRange. induction text as [|c r IH]; simpl.
  - split; [discriminate | intros H; inversion H].
  - rewrite Exists_cons, orb_true_iff, IH. intuition lia.
Qed.

Lemma testRange_false lo hi (text : jsstring) :
  testRange lo hi text = false <-> Forall (fun c => ~ lo <= c <= hi) text.
Proof.
  rewrite <- not_true_iff_false, testRange_true, <- Forall_Exists_neg.
  reflexivity.
Qed.

(** A non-empty text of one script matches that script's range. *)
Lemma testRange_only lo hi (text : jsstring) :
  text <> [] -> Forall (fun c => lo <= c <= hi) text ->
  testRange lo hi text = true.
Proof.
  intros Hne Hall. apply testRange_true.
  destruct text as [|c r]; [congruence|].
  apply Exists_cons_hd. inversion Hall; assumption.
Qed.

(** A text whose code units all lie in a range disjoint from [lo..hi]
    does not match [lo..hi]. *)
Lemma testRange_disjoint lo hi lo' hi' (text : jsstring) :
  hi' < lo \/ hi < lo' ->
  Forall (fun c => lo' <= c <= hi') text -> testRange lo hi text = false.
Proof.
  intros Hd Hall. apply testRange_false.
  eapply Forall_impl; [exact Hall|]. simpl. intros c Hc. lia.
Qed.

Lemma whitespace_no_script c :
  isWhiteSpace c = true ->
  ~ 0x0B80 <= c <= 0x0BFF /\ ~ 0x0C00 <= c <= 0x0C7F /\ ~ 0x0900 <= c <= 0x097F.
Proof. unfold isWhiteSpace. lia. Qed.

Lemma detect_default (text : jsstring) :
  Forall (fun c => ~ 0x0B80 <= c <= 0x0BFF /\ ~ 0x0C00 <= c <= 0x0C7F
                   /\ ~ 0x0900 <= c <= 0x097F) text ->
  detectLanguage text = {| language := "en"; confidence := 0.5%Q |}.
Proof.
  intros Hall. unfold detectLanguage, tamilRegex, teluguRegex, hindiRegex.
  assert (Ht : testRange 0x0B80 0x0BFF text = false).
  { apply testRange_false. eapply Forall_impl; [exact Hall|]. simpl; tauto. }
  assert (Hu : testRange 0x0C00 0x0C7F text = false).
  { apply testRange_false. eapply Forall_impl; [exact Hall|]. simpl; tauto. }
  assert (Hd : testRange 0x0900 0x097F text = false).
  { apply testRange_false. eapply Forall_impl; [exact Hall|]. simpl; tauto. }
  rewrite Ht, Hu, Hd. reflexivity.
Qed.

(** C8.  [detectLanguage] tests the script ranges in the order Tamil,
    Telugu, Devanagari and falls back to English, with the fixed
    confidences 1, 1, 0.8 and 0.5.  Hence a non-empty text of Tamil code
    points only is ['ta'] with 1, one of Telugu code points only is ['te']
    with 1, one of Devanagari code points only is ['hi'] with 0.8; a text
    with no code point of the three scripts (the empty text, a text of
    white space, an ASCII text) is ['en'] with 0.5; and ['mr'] is never
    the answer. *)
Theorem detectLanguage_fixed_priority (text : jsstring) :
  (tamilRegex text = true ->
   detectLanguage text = {| language := "ta"; confidence := 1%Q |})
  /\ (tamilRegex text = false -> teluguRegex text = true ->
      detectLanguage text = {| language := "te"; confidence := 1%Q |})
  /\ (tamilRegex text = false -> teluguRegex text = false ->
      hindiRegex text = true ->
      detectLanguage text = {| language := "hi"; confidence := 0.8%Q |})
  /\ (tamilRegex text = false -> teluguRegex text = false ->
      hindiRegex text = false ->
      detectLanguage text = {| language := "en"; confidence := 0.5%Q |})
  /\ (text <> [] -> Forall (fun c => 0x0B80 <= c <= 0x0BFF) text ->
      detectLanguage text = {| language := "ta"; confidence := 1%Q |})
  /\ (text <> [] -> Forall (fun c => 0x0C00 <= c <= 0x0C7F) text ->
      detectLanguage text = {| language := "te"; confidence := 1%Q |})
  /\ (text <> [] -> Forall (fun c => 0x0900 <= c <= 0x097F) text ->
      detectLanguage text = {| language := "hi"; confidence := 0.8%Q |})
  /\ (Forall (fun c => isWhiteSpace c = true) text ->
      detectLanguage text = {| language := "en"; confidence := 0.5%Q |})
  /\ (Forall (fun c => 0 <= c < 128) text ->
      detectLanguage text = {| language := "en"; confidence := 0.5%Q |})
  /\ language (detectLanguage text) <> "mr"%string.
Proof.
  unfold detectLanguage.
  repeat split.
  - intros ->. reflexivity.
  - intros -> ->. reflexivity.
  - intros -> -> ->. reflexivity.
  - intros -> -> ->. reflexivity.
  - intros Hne Hall. unfold tamilRegex.
    rewrite (testRange_only _ _ _ Hne Hall). reflexivity.
  - intros Hne Hall. unfold tamilRegex, teluguRegex.
    rewrite (testRange_disjoint 0x0B80 0x0BFF 0x0C00 0x0C7F text); [|lia|exact Hall].
    rewrite (testRange_only _ _ _ Hne Hall). reflexivity.
  - intros Hne Hall. unfold tamilRegex, teluguRegex, hindiRegex.
    rewrite (testRange_disjoint 0x0B80 0x0BFF 0x0900 0x097F text); [|lia|exact Hall].
    rewrite (testRange_disjoint 0x0C00 0x0C7F 0x0900 0x097F text); [|lia|exact Hall].
    rewrite (testRange_only _ _ _ Hne Hall). reflexivity.
  - intros Hall. apply detect_default.
    eapply Forall_impl; [exact Hall|]. apply whitespace_no_script.
  - intros Hall. apply detect_default.
    eapply Forall_impl; [exact Hall|]. simpl. intros c Hc. lia.
  - destruct (tamilRegex text), (teluguRegex text), (hindiRegex text);
      simpl; discriminate.
Qed.

(** The theorem at a Tamil, a Telugu, a Devanagari, a blank and a mixed
    text. *)
Lemma detectLanguage_fixed_priority_witness :
  detectLanguage [0x0BA4; 0x0BAE; 0x0BBF; 0x0BB4; 0x0BCD]
    = {| language := "ta"; confidence := 1%Q |}
  /\ detectLanguage [0x0C24; 0x0C46; 0x0C32; 0x0C41; 0x0C17; 0x0C41]
     = {| language := "te"; confidence := 1%Q |}
  /\ detectLanguage suprabhat = {| language := "hi"; confidence := 0.8%Q |}
  /\ detectLanguage (js "   ") = {| language := "en"; confidence := 0.5%Q |}
  /\ detectLanguage (js "hi " ++ [0x0C24; 0x0BA4])
     = {| language := "ta"; confidence := 1%Q |}.
Proof.
  split; [|split; [|split; [|split]]].
  - destruct (detectLanguage_fixed_priority
                [0x0BA4; 0x0BAE; 0x0BBF; 0x0BB4; 0x0BCD])
      as (_ & _ & _ & _ & H & _).
    apply H; [discriminate | repeat constructor; lia].
  - destruct (detectLanguage_fixed_priority
                [0x0C24; 0x0C46; 0x0C32; 0x0C41; 0x0C17; 0x0C41])
      as (_ & _ & _ & _ & _ & H & _).
    apply H; [discriminate | repeat constructor; lia].
  - destruct (detectLanguage_fixed_priority suprabhat)
      as (_ & _ & _ & _ & _ & _ & H & _).
    apply H; [discriminate | repeat constructor; lia].
  - destruct (detectLanguage_fixed_priority (js "   "))
      as (_ & _ & _ & _ & _ & _ & _ & H & _).
    apply H. repeat constructor.
  - destruct (detectLanguage_fixed_priority (js "hi " ++ [0x0C24; 0x0BA4]))
      as (H & _).
    apply H. reflexivity.
Defined.

(** ** Strings *)

Lemma streq_true (a b : jsstring) : streq a b = true <-> a = b.
Proof. unfold streq. apply bool_decide_eq_true. Qed.

Lemma streq_refl (a : jsstring) : streq a a = true.
Proof. apply streq_true. reflexivity. Qed.

Lemma trim_nil : trim [] = [].
Proof. reflexivity. Qed.

Lemma truthy_true (s : jsstring) : truthy s = true <-> s <> [].
Proof. destruct s; simpl; split; congruence. Qed.

Lemma truthy_trim (text : jsstring) :
  truthy (trim text) = true -> truthy text = true.
Proof. destruct text; [rewrite trim_nil|]; auto. Qed.

Lemma differs_same h (a : jsstring) : differs h a a = false.
Proof. unfold differs. rewrite streq_refl. reflexivity. Qed.

(** [trimStart] takes white space off the front and stops at the first
    code unit that is none. *)
Lemma trimStart_spec (s : jsstring) :
  exists ws, s = ws ++ trimStart s
             /\ Forall (fun c => isWhiteSpace c = true) ws
             /\ trimStart (trimStart s) = trimStart s
             /\ (forall c r, trimStart s = c :: r -> isWhiteSpace c = false).
Proof.
  induction s as [|c r (ws & Heq & Hws & Hid & Hhd)]; simpl.
  - exists []. repeat split; auto. intros; discriminate.
  - destruct (isWhiteSpace c) eqn:Hc.
    + exists (c :: ws). repeat split; auto.
      simpl. f_equal. exact Heq.
    + exists []. repeat split; auto.
      * simpl. rewrite Hc. reflexivity.
      * intros c' r' [= <- <-]. exact Hc.
Qed.

Lemma trimStart_fixed c (r : jsstring) :
  isWhiteSpace c = false -> trimStart (c :: r) = c :: r.
Proof. intros Hc. simpl. rewrite Hc. reflexivity. Qed.

(** A trimmed text starts and ends with a code unit that is no white
    space, so trimming it again changes nothing. *)
Lemma trim_idempotent (s : jsstring) : trim (trim s) = trim s.
Proof.
  unfold trim, trimEnd.
  destruct (trimStart_spec s) as (_ & _ & _ & _ & Hhd).
  destruct (trimStart_spec (rev (trimStart s))) as (ws & Heq & _ & Hid & _).
  set (u := trimStart s) in *. set (v := trimStart (rev u)) in *.
  assert (Hu : u = rev v ++ rev ws).
  { rewrite <- rev_app_distr, <- Heq, rev_involutive. reflexivity. }
  assert (Hfront : trimStart (rev v) = rev v).
  { destruct (rev v) as [|c r] eqn:Hrv; [reflexivity|].
    apply trimStart_fixed. apply (Hhd c (r ++ rev ws)).
    rewrite Hu. reflexivity. }
  rewrite Hfront, rev_involutive. fold v. rewrite Hid. reflexivity.
Qed.

Lemma stripQuotes_quoted (s : jsstring) :
  stripQuotes (QUOTE :: s ++ [QUOTE]) = s.
Proof.
  unfold stripQuotes, stripTrailingQuote. simpl.
  rewrite rev_app_distr. simpl. apply rev_involutive.
Qed.

Lemma split_no_sep sep (s : jsstring) :
  Forall (fun c => c <> sep) s -> split sep s = [s].
Proof.
  induction 1 as [|c r Hc _ IH]; simpl; [reflexivity|].
  apply Z.eqb_neq in Hc. rewrite Hc, IH. reflexivity.
Qed.

Lemma split_at_sep sep (a b : jsstring) :
  Forall (fun c => c <> sep) a ->
  split sep (a ++ sep :: b) = a :: split sep b.
Proof.
  induction 1 as [|c r Hc _ IH]; simpl.
  - rewrite Z.eqb_refl. reflexivity.
  - apply Z.eqb_neq in Hc. rewrite Hc, IH. reflexivity.
Qed.

(** A text without surrogates is written to disk as it is. *)
Lemma toWellFormed_id (s : jsstring) :
  Forall (fun c => isHighSurrogate c = false /\ isLowSurrogate c = false) s ->
  toWellFormed s = s.
Proof.
  induction 1 as [|c r [Hh Hl] _ IH]; simpl; [reflexivity|].
  rewrite Hh, Hl, IH. reflexivity.
Qed.

Lemma toWellFormed_cons c (r : jsstring) :
  toWellFormed (c :: r)
  = if isHighSurrogate c then
      match r with
      | d :: r' =>
          if isLowSurrogate d then c :: d :: toWellFormed r'
          else 0xFFFD :: toWellFormed r
      | [] => [0xFFFD]
      end
    else if isLowSurrogate c then 0xFFFD :: toWellFormed r
    else c :: toWellFormed r.
Proof. reflexivity. Qed.

Lemma replacement_no_surrogate c :
  isHighSurrogate c || isLowSurrogate c = true -> c <> 0xFFFD.
Proof.
  unfold isHighSurrogate, isLowSurrogate. intros H ->. discriminate.
Qed.

(** A text that goes to disk as it is can be followed by any other: what
    is written is the text and then what is written for the other.  Such
    a text does not end in half a pair. *)
Lemma toWellFormed_app_bounded n : forall a b : jsstring,
  (length a <= n)%nat -> toWellFormed a = a ->
  toWellFormed (a ++ b) = a ++ toWellFormed b.
Proof.
  induction n as [|n IH]; intros a b Hlen Ha.
  - destruct a; [reflexivity | simpl in Hlen; lia].
  - destruct a as [|c r]; [reflexivity|].
    rewrite toWellFormed_cons in Ha.
    change ((c :: r) ++ b) with (c :: (r ++ b)). rewrite toWellFormed_cons.
    simpl in Hlen.
    destruct (isHighSurrogate c) eqn:Hh.
    + destruct r as [|d r'].
      * injection Ha as Hc. symmetry in Hc.
        exfalso. apply (replacement_no_surrogate c); [|exact Hc].
        rewrite Hh. reflexivity.
      * change ((d :: r') ++ b) with (d :: (r' ++ b)).
        destruct (isLowSurrogate d) eqn:Hd.
        -- injection Ha as Hr. simpl in Hlen. cbv iota. rewrite Hd.
           rewrite (IH r' b ltac:(lia) Hr). reflexivity.
        -- injection Ha as Hc _. symmetry in Hc.
           exfalso. apply (replacement_no_surrogate c); [|exact Hc].
           rewrite Hh. reflexivity.
    + destruct (isLowSurrogate c) eqn:Hl.
      * injection Ha as Hc _. symmetry in Hc.
        exfalso. apply (replacement_no_surrogate c); [|exact Hc].
        rewrite Hl. apply orb_true_r.
      * injection Ha as Hr. rewrite (IH r b ltac:(lia) Hr). reflexivity.
Qed.

Lemma toWellFormed_app (a b : jsstring) :
  toWellFormed a = a -> toWellFormed (a ++ b) = a ++ toWellFormed b.
Proof. apply (toWellFormed_app_bounded (length a)). lia. Qed.

Lemma plain_spec (s : jsstring) :
  plain s = true ->
  Forall (fun c => c <> COMMA) s
  /\ Forall (fun c => c <> LF) s
  /\ toWellFormed s = s.
Proof.
  unfold plain. rewrite andb_true_iff, streq_true. intros [Hall Hwf].
  split; [|split; [|exact Hwf]]; clear Hwf;
    induction s as [|c r IH]; constructor;
    simpl in Hall; rewrite !andb_true_iff, !negb_true_iff, !Z.eqb_neq in Hall;
    tauto.
Qed.

(** ** Lines and records *)

Lemma splitLines_cons c (r : jsstring) :
  splitLines (c :: r) =
  let keep := match splitLines r with
              | l :: ls => (c :: l) :: ls
              | [] => [[c]]
              end in
  if c =? LF then [] :: splitLines r
  else if c =? CR then
    match r with
    | d :: r' => if d =? LF then [] :: splitLines r' else keep
    | [] => keep
    end
  else keep.
Proof. reflexivity. Qed.

(** A line without line feed that ends in [q], no CR, is cut off whole. *)
Lemma splitLines_line (l : jsstring) q (b : jsstring) :
  Forall (fun c => c <> LF) l -> q <> LF -> q <> CR ->
  splitLines (l ++ q :: LF :: b) = (l ++ [q]) :: splitLines b.
Proof.
  intros Hl Hq1 Hq2. induction Hl as [|c r Hc Hr IH].
  - simpl app. rewrite splitLines_cons. cbv zeta.
    apply Z.eqb_neq in Hq1, Hq2. rewrite Hq1, Hq2.
    rewrite splitLines_cons. cbv zeta. rewrite Z.eqb_refl. reflexivity.
  - change ((c :: r) ++ q :: LF :: b) with (c :: (r ++ q :: LF :: b)).
    rewrite splitLines_cons. cbv zeta. rewrite IH.
    apply Z.eqb_neq in Hc. rewrite Hc.
    destruct (c =? CR); [|reflexivity].
    destruct r as [|d r']; simpl app; cbv beta iota.
    + apply Z.eqb_neq in Hq1. rewrite Hq1. reflexivity.
    + inversion Hr as [|? ? Hd _]; subst. apply Z.eqb_neq in Hd.
      rewrite Hd. reflexivity.
Qed.

(** The lines before a line feed do not depend on what follows it. *)
Lemma splitLines_before_LF_bounded n (a : jsstring) :
  (length a <= n)%nat ->
  exists l ls, forall b, splitLines (a ++ LF :: b) = (l :: ls) ++ splitLines b.
Proof.
  revert a. induction n as [|n IH]; intros a Hlen.
  - destruct a; [|simpl in Hlen; lia].
    exists [], []. intros b. simpl app. rewrite splitLines_cons. cbv zeta.
    rewrite Z.eqb_refl. reflexivity.
  - destruct a as [|c a'].
    { exists [], []. intros b. simpl app. rewrite splitLines_cons. cbv zeta.
      rewrite Z.eqb_refl. reflexivity. }
    simpl in Hlen.
    destruct (IH a' ltac:(lia)) as (l' & ls' & Ha').
    destruct (c =? LF) eqn:HcLF.
    { exists [], (l' :: ls'). intros b.
      change ((c :: a') ++ LF :: b) with (c :: (a' ++ LF :: b)).
      rewrite splitLines_cons. cbv zeta. rewrite HcLF, Ha'. reflexivity. }
    assert (Hkeep : forall b,
               match splitLines (a' ++ LF :: b) with
               | l :: ls => (c :: l) :: ls
               | [] => [[c]]
               end = ((c :: l') :: ls') ++ splitLines b).
    { intros b. rewrite Ha'. reflexivity. }
    destruct (c =? CR) eqn:HcCR.
    + destruct a' as [|d a''].
      * exists [], []. intros b. simpl app. rewrite splitLines_cons. cbv zeta.
        rewrite HcLF, HcCR, Z.eqb_refl. reflexivity.
      * destruct (d =? LF) eqn:HdLF.
        -- simpl in Hlen.
           destruct (IH a'' ltac:(lia)) as (l'' & ls'' & Ha'').
           exists [], (l'' :: ls''). intros b.
           change ((c :: d :: a'') ++ LF :: b)
             with (c :: d :: (a'' ++ LF :: b)).
           rewrite splitLines_cons. cbv zeta.
           rewrite HcLF, HcCR, HdLF, Ha''. reflexivity.
        -- exists (c :: l'), ls'. intros b.
           change ((c :: d :: a'') ++ LF :: b)
             with (c :: d :: (a'' ++ LF :: b)).
           rewrite splitLines_cons. cbv zeta.
           rewrite HcLF, HcCR, HdLF.
           apply (Hkeep b).
    + exists (c :: l'), ls'. intros b.
      change ((c :: a') ++ LF :: b) with (c :: (a' ++ LF :: b)).
      rewrite splitLines_cons. cbv zeta. rewrite HcLF, HcCR.
      apply (Hkeep b).
Qed.

Lemma splitLines_before_LF (a : jsstring) :
  exists l ls, forall b, splitLines (a ++ LF :: b) = (l :: ls) ++ splitLines b.
Proof. apply (splitLines_before_LF_bounded (length a)). lia. Qed.

Lemma endsLine_spec (content : jsstring) :
  endsLine content = true -> content = [] \/ exists a, content = a ++ [LF].
Proof.
  unfold endsLine. destruct (rev content) as [|c r] eqn:Hrev.
  - intros _. left. apply (f_equal (@rev Z)) in Hrev.
    rewrite rev_involutive in Hrev. exact Hrev.
  - intros Hc. apply Z.eqb_eq in Hc. subst c. right. exists (rev r).
    apply (f_equal (@rev Z)) in Hrev. rewrite rev_involutive in Hrev.
    exact Hrev.
Qed.

Lemma findPhrase_truthy h lines key v :
  findPhrase h lines key = Some v -> truthy v = true.
Proof.
  induction lines as [|line rest IH]; simpl; [discriminate|].
  destruct (truthy (srcOf line) && truthyO (tgtOf line)
            && streq (toLowerCase h (srcOf line)) key) eqn:Hm; [|exact IH].
  intros Hv. rewrite Hv in Hm. simpl in Hm.
  rewrite !andb_true_iff in Hm. tauto.
Qed.

Lemma findPhrase_truthyO h lines key :
  truthyO (findPhrase h lines key) = false -> findPhrase h lines key = None.
Proof.
  destruct (findPhrase h lines key) as [v|] eqn:Hf; [|reflexivity].
  simpl. rewrite (findPhrase_truthy _ _ _ _ Hf). discriminate.
Qed.

(** A source the route's scan does not find, the lookup does not find. *)
Lemma findPhrase_unlisted h l1 l2 key :
  sourceListed h l1 key = false ->
  findPhrase h (l1 ++ l2) key = findPhrase h l2 key.
Proof.
  unfold sourceListed. induction l1 as [|line rest IH]; simpl; [reflexivity|].
  rewrite orb_false_iff. intros [Hline Hrest].
  rewrite <- andb_assoc, (andb_comm (truthyO _)), andb_assoc, Hline.
  simpl. apply IH, Hrest.
Qed.

Lemma findPhrase_none_unlisted h lines key :
  sourceListed h lines key = false -> findPhrase h lines key = None.
Proof.
  intros H. rewrite <- (app_nil_r lines).
  rewrite (findPhrase_unlisted _ _ _ _ H). reflexivity.
Qed.

(** The line the route writes, without its line feed. *)
Lemma fieldsOf_record (P R : jsstring) :
  plain P = true -> plain R = true -> trim P = P -> trim R = R ->
  fieldsOf ([QUOTE] ++ P ++ [QUOTE; COMMA; QUOTE] ++ R ++ [QUOTE]) = [P; R].
Proof.
  intros HP HR HtP HtR.
  destruct (plain_spec _ HP) as (HPc & _ & _).
  destruct (plain_spec _ HR) as (HRc & _ & _).
  unfold fieldsOf.
  replace ([QUOTE] ++ P ++ [QUOTE; COMMA; QUOTE] ++ R ++ [QUOTE])
    with (([QUOTE] ++ P ++ [QUOTE]) ++ COMMA :: ([QUOTE] ++ R ++ [QUOTE]))
    by (repeat (simpl; rewrite <- app_assoc); reflexivity).
  rewrite split_at_sep, split_no_sep.
  - cbn [map app]. rewrite !stripQuotes_quoted, HtP, HtR. reflexivity.
  - apply Forall_app. split; [repeat constructor; discriminate|].
    apply Forall_app. split; [exact HRc | repeat constructor; discriminate].
  - apply Forall_app. split; [repeat constructor; discriminate|].
    apply Forall_app. split; [exact HPc | repeat constructor; discriminate].
Qed.

(** After the record of a phrase is appended to a file that ends its last
    line and does not list the phrase, the lookup finds the record and the
    route's scan lists the phrase. *)
Lemma lookup_after_append h (old p r : jsstring) :
  endsLine old = true ->
  sourceListed h (splitLines old) (toLowerCase h (trim p)) = false ->
  plain (trim p) = true -> plain (trim r) = true ->
  truthy (trim p) = true -> truthy (trim r) = true ->
  findPhrase h (splitLines (old ++ csvRecord p r)) (toLowerCase h (trim p))
    = Some (trim r)
  /\ sourceListed h (splitLines (old ++ csvRecord p r))
       (toLowerCase h (trim p)) = true.
Proof.
  intros Hend Hold HP HR HtP HtR.
  set (key := toLowerCase h (trim p)) in *.
  set (line := [QUOTE] ++ trim p ++ [QUOTE; COMMA; QUOTE] ++ trim r ++ [QUOTE]).
  assert (Hfields : fieldsOf line = [trim p; trim r]).
  { apply fieldsOf_record; auto using trim_idempotent. }
  assert (Hsrc : srcOf line = trim p) by (unfold srcOf; rewrite Hfields; reflexivity).
  assert (Htgt : tgtOf line = Some (trim r)) by (unfold tgtOf; rewrite Hfields; reflexivity).
  assert (Hrec : forall b, splitLines (csvRecord p r ++ b) = line :: splitLines b).
  { intros b. unfold csvRecord.
    destruct (plain_spec _ HP) as (_ & HPl & _).
    destruct (plain_spec _ HR) as (_ & HRl & _).
    replace (([QUOTE] ++ trim p ++ [QUOTE; COMMA; QUOTE] ++ trim r ++ [QUOTE; LF]) ++ b)
      with (([QUOTE] ++ trim p ++ [QUOTE; COMMA; QUOTE] ++ trim r) ++ QUOTE :: LF :: b)
      by (repeat (simpl; rewrite <- app_assoc); reflexivity).
    rewrite splitLines_line; [| |discriminate|discriminate].
    - f_equal. unfold line. repeat (simpl; rewrite <- app_assoc). reflexivity.
    - apply Forall_app. split; [repeat constructor; discriminate|].
      apply Forall_app. split; [exact HPl|].
      apply Forall_app. split; [repeat constructor; discriminate | exact HRl]. }
  assert (Hfind : findPhrase h (line :: splitLines []) key = Some (trim r)).
  { simpl. rewrite Hsrc, Htgt. simpl. rewrite HtP, HtR. unfold key.
    rewrite streq_refl. reflexivity. }
  assert (Hlisted : sourceListed h (line :: splitLines []) key = true).
  { unfold sourceListed. simpl. rewrite Hsrc, HtP. unfold key.
    rewrite streq_refl. reflexivity. }
  destruct (endsLine_spec _ Hend) as [-> | (a & ->)].
  - simpl app. rewrite <- (app_nil_r (csvRecord p r)), Hrec. auto.
  - destruct (splitLines_before_LF a) as (l & ls & Hsplit).
    rewrite <- app_assoc. simpl app.
    rewrite Hsplit in Hold. rewrite Hsplit.
    rewrite <- (app_nil_r (csvRecord p r)), Hrec.
    unfold sourceListed in Hold. rewrite existsb_app, orb_false_iff in Hold.
    destruct Hold as [Hold _]. split.
    + rewrite findPhrase_unlisted; [exact Hfind | exact Hold].
    + unfold sourceListed. rewrite existsb_app.
      fold (sourceListed h (line :: splitLines []) key).
      rewrite Hlisted. apply orb_true_r.
Qed.

(** ** Running the lookups and the engine *)

Ltac mrun :=
  unfold mbind, mret, M_bind, M_ret, throw, tryCatch, emit, getFiles,
    putFiles, getModelCache, putModelCache;
  simpl.

Lemma addEvents_nil st : addEvents [] st = st.
Proof. destruct st. reflexivity. Qed.

Lemma addEvents_app a b st :
  addEvents a (addEvents b st) = addEvents (a ++ b) st.
Proof. unfold addEvents. simpl. rewrite app_assoc. reflexivity. Qed.

(** The idiom lookup never throws and only reads the idiom file. *)
Lemma lookupCulturalIdiom_run h text s t st :
  lookupCulturalIdiom h text s t st
  = (Ok (idiomOf h (files st) text s t), addEvents (idiomReads s t) st).
Proof.
  unfold lookupCulturalIdiom, idiomOf, idiomReads.
  destruct (idiomFileOf s t) as [f|]; simpl.
  - unfold readFileSync, readOf. mrun.
    destruct (files st !! f) as [csv|]; [|reflexivity].
    destruct (readFails h f); reflexivity.
  - mrun. rewrite addEvents_nil. reflexivity.
Qed.

(** The phrase lookup never throws and only reads. *)
Lemma getPhraseFromCSV_run h text s t st :
  getPhraseFromCSV h text s t st
  = (Ok (phraseOf h (files st) text s t),
     addEvents (phraseReads h (files st) s t) st).
Proof.
  unfold getPhraseFromCSV, phraseOf, phraseReads, readdirSync, readFileSync,
    readOf.
  mrun. destruct (readdirFails h); [reflexivity|]. simpl.
  case_bool_decide as Hdom; rewrite elem_of_dom in Hdom; simpl.
  - destruct Hdom as [csv Hcsv]. rewrite Hcsv. simpl.
    destruct (readFails h (csvFileOf s t)); reflexivity.
  - destruct (files st !! csvFileOf s t) as [csv|] eqn:Hcsv; [|reflexivity].
    exfalso. apply Hdom. eauto.
Qed.

Lemma loadModel_run h st :
  loadModel h st
  = (if translator (modelCache st) || pipelineResolves h
     then Ok tt else Throw LoadFailed,
     engineState h (loadEvents (modelCache st)) st).
Proof.
  unfold loadModel, engineState, cacheAfterLoad, loadEvents. mrun.
  destruct st as [fs [tr pr] trc]. simpl.
  destruct tr, pr, (pipelineResolves h); reflexivity.
Qed.

Lemma localTranslate_run h text s t st :
  localTranslate h text s t st
  = if translator (modelCache st) || pipelineResolves h
    then (answerOf h text s t,
          engineState h (EvTranslate text (nllbCode s) (nllbCode t)
                           :: loadEvents (modelCache st)) st)
    else (Throw LoadFailed, engineState h (loadEvents (modelCache st)) st).
Proof.
  unfold localTranslate.
  change (loadModel h;; ?k) with (mbind (fun _ : unit => k) (loadModel h)).
  unfold mbind at 1. unfold M_bind at 1. rewrite loadModel_run.
  destruct (translator (modelCache st) || pipelineResolves h); [|reflexivity].
  unfold invokeModel, answerOf, engineState. mrun.
  destruct (model h text (nllbCode s) (nllbCode t)); reflexivity.
Qed.

(** Once the translator is set, the cache stays as it is and no load is
    recorded. *)
Lemma cacheAfterLoad_loaded h mc :
  translator mc || pipelineResolves h = true ->
  translator (cacheAfterLoad h mc) = true
  /\ cacheAfterLoad h (cacheAfterLoad h mc) = cacheAfterLoad h mc
  /\ loadEvents (cacheAfterLoad h mc) = [].
Proof.
  unfold cacheAfterLoad, loadEvents.
  destruct mc as [tr pr]; simpl. destruct tr; simpl.
  - auto.
  - intros ->. auto.
Qed.

(** In one thread of calls the pipeline is built at most once: a second
    [loadModel] finds the translator, or the rejected promise, cached. *)
Lemma loadModel_loads_once h st :
  (modelLoads (snd (loadModel h st)) <= modelLoads st + 1)%nat
  /\ modelLoads (snd (loadModel h (snd (loadModel h st))))
     = modelLoads (snd (loadModel h st)).
Proof.
  rewrite !loadModel_run.
  unfold engineState, modelLoads, loadEvents, cacheAfterLoad.
  destruct st as [fs [tr pr] trc].
  destruct tr, pr, (pipelineResolves h); unfold omap; simpl;
    (split; [lia | reflexivity]).
Qed.

(** The engine branch: its value, and the state it leaves. *)
Lemma localPromise_run h text s t st :
  let mc := modelCache st in
  let direct := String.eqb s "en" || String.eqb t "en" in
  localPromise h text s t st
  = if translator mc || pipelineResolves h then
      if direct then
        (answerOf h text s t,
         engineState h (EvTranslate text (nllbCode s) (nllbCode t)
                          :: loadEvents mc) st)
      else
        match answerOf h text s "en" with
        | Ok mid =>
            (answerOf h mid "en" t,
             engineState h (EvTranslate mid (nllbCode "en") (nllbCode t)
                              :: EvTranslate text (nllbCode s) (nllbCode "en")
                              :: loadEvents mc) st)
        | Throw e =>
            (Throw e,
             engineState h (EvTranslate text (nllbCode s) (nllbCode "en")
                              :: loadEvents mc) st)
        end
    else (Throw LoadFailed, engineState h (loadEvents mc) st).
Proof.
  cbv zeta. unfold localPromise.
  destruct (String.eqb s "en" || String.eqb t "en").
  - apply localTranslate_run.
  - unfold mbind, M_bind. rewrite localTranslate_run.
    destruct (translator (modelCache st) || pipelineResolves h) eqn:Hload;
      [|reflexivity].
    destruct (answerOf h text s "en") as [mid|e]; [|reflexivity].
    rewrite localTranslate_run.
    destruct (cacheAfterLoad_loaded h _ Hload) as (Htr & Hidem & Hev).
    unfold engineState. simpl. rewrite Htr, Hidem, Hev. reflexivity.
Qed.

Lemma localPromise_value h text s t st :
  fst (localPromise h text s t st) = engineOf h (modelCache st) text s t.
Proof.
  rewrite localPromise_run. unfold engineOf. cbv zeta.
  destruct (translator (modelCache st) || pipelineResolves h); [|reflexivity].
  destruct (String.eqb s "en" || String.eqb t "en"); [reflexivity|].
  destruct (answerOf h text s "en"); reflexivity.
Qed.

Lemma localPromise_files h text s t st :
  files (snd (localPromise h text s t st)) = files st.
Proof.
  rewrite localPromise_run. cbv zeta.
  destruct (translator (modelCache st) || pipelineResolves h); [|reflexivity].
  destruct (String.eqb s "en" || String.eqb t "en"); [reflexivity|].
  destruct (answerOf h text s "en"); reflexivity.
Qed.

Lemma idiomOf_truthy h fs text s t v :
  idiomOf h fs text s t = Some v -> truthy v = true.
Proof.
  unfold idiomOf. destruct (idiomFileOf s t) as [f|]; simpl; [|discriminate].
  destruct (readOf h fs f) as [csv|]; simpl; [|discriminate].
  apply findPhrase_truthy.
Qed.

Lemma phraseOf_truthy h fs text s t v :
  phraseOf h fs text s t = Some v -> truthy v = true.
Proof.
  unfold phraseOf. destruct (readdirFails h); [discriminate|].
  destruct (readOf h fs (csvFileOf s t)) as [csv|]; simpl; [|discriminate].
  apply findPhrase_truthy.
Qed.

(** The engine never hands back an empty text for a non-empty one. *)
Lemma answerOf_truthy h text s t r :
  truthy text = true -> answerOf h text s t = Ok r -> truthy r = true.
Proof.
  unfold answerOf. intros Ht.
  destruct (model h text (nllbCode s) (nllbCode t)) as [|o]; [discriminate|].
  destruct o as [o|]; simpl.
  - destruct (truthy o) eqn:Ho; intros [= <-]; assumption.
  - intros [= <-]. exact Ht.
Qed.

Lemma engineOf_truthy h mc text s t r :
  truthy text = true -> engineOf h mc text s t = Ok r -> truthy r = true.
Proof.
  unfold engineOf. intros Ht.
  destruct (translator mc || pipelineResolves h); [|discriminate].
  destruct (String.eqb s "en" || String.eqb t "en").
  - apply answerOf_truthy, Ht.
  - destruct (answerOf h text s "en") as [mid|e] eqn:Hmid; [|discriminate].
    apply answerOf_truthy. eapply answerOf_truthy; eauto.
Qed.

(** ** The orchestrator *)

(** The short circuit: a blank text, or one language on both ends. *)
Lemma translateText_shortcut h text tgt src st :
  truthy (trim text) = false \/ src = tgt ->
  translateText h text (Code tgt) (Some src) st = (Ok text, st).
Proof.
  intros Hc. unfold translateText. simpl.
  destruct Hc as [Hblank | ->].
  - rewrite Hblank. simpl. rewrite orb_true_r. reflexivity.
  - rewrite String.eqb_refl, orb_true_r. reflexivity.
Qed.

(** Past the short circuit: the idiom, or else the phrase lookup and the
    engine, in this order. *)
Lemma translateText_steps h text tgt src st :
  truthy (trim text) = true -> src <> tgt ->
  translateText h text (Code tgt) (Some src) st
  = match idiomOf h (files st) text src tgt with
    | Some idiom => (Ok idiom, addEvents (idiomReads src tgt) st)
    | None =>
        match localPromise h text src tgt
                (addEvents (phraseReads h (files st) src tgt
                            ++ idiomReads src tgt) st) with
        | (Ok localResult, st') =>
            (Ok match phraseOf h (files st) text src tgt with
                | Some phrase => phrase
                | None => if truthy localResult && differs h localResult text
                          then localResult else text
                end, st')
        | (Throw e, st') => (Throw e, st')
        end
    end.
Proof.
  intros Hblank Hne. unfold translateText. simpl.
  rewrite Hblank, (truthy_trim _ Hblank).
  apply String.eqb_neq in Hne. rewrite Hne. simpl.
  unfold mbind at 1. unfold M_bind at 1. rewrite lookupCulturalIdiom_run.
  destruct (idiomOf h (files st) text src tgt) as [idiom|] eqn:Hidiom.
  - simpl. rewrite (idiomOf_truthy _ _ _ _ _ _ Hidiom). reflexivity.
  - change (truthyO None) with false. cbv iota.
    unfold mbind at 1. unfold M_bind at 1. rewrite getPhraseFromCSV_run.
    rewrite addEvents_app. simpl files.
    unfold mbind at 1. unfold M_bind at 1.
    destruct (localPromise h text src tgt _) as [[localResult|e] st'];
      [|reflexivity].
    destruct (phraseOf h (files st) text src tgt) as [phrase|] eqn:Hphrase.
    + simpl. rewrite (phraseOf_truthy _ _ _ _ _ _ Hphrase). reflexivity.
    + simpl. destruct (truthy localResult && differs h localResult text);
        reflexivity.
Qed.

(** [translateText] writes no file. *)
Lemma translateText_files h text tgt src st :
  files (snd (translateText h text (Code tgt) (Some src) st)) = files st.
Proof.
  destruct (truthy (trim text)) eqn:Hblank.
  2: { rewrite translateText_shortcut; auto. }
  destruct (String.eqb_spec src tgt) as [->|Hne].
  { rewrite translateText_shortcut; auto. }
  rewrite translateText_steps by assumption.
  destruct (idiomOf h (files st) text src tgt); [reflexivity|].
  pose proof (localPromise_files h text src tgt
                (addEvents (phraseReads h (files st) src tgt
                            ++ idiomReads src tgt) st)) as Hf.
  destruct (localPromise h text src tgt _) as [[r|e] st']; exact Hf.
Qed.

(** C6.  [translateText(t, lang, lang, _)] returns [t] for every text and
    language code, and a text that is empty or white space is returned
    unchanged for all languages and options; in both cases the state is
    untouched: no idiom lookup, no phrase lookup, no engine call and no
    write is recorded.  The CSV update of the route does nothing either
    when the translation is the text itself. *)
Theorem same_language_and_blank_text_unchanged h st (text : jsstring) :
  (forall lang,
      translateText h text (Code lang) (Some lang) st = (Ok text, st))
  /\ (truthy (trim text) = false ->
      forall a2 a3, translateText h text a2 a3 st = (Ok text, st))
  /\ (forall detected target,
         csvUpdate h text text detected target st = (Ok tt, st)).
Proof.
  split; [|split].
  - intros lang. apply translateText_shortcut. auto.
  - intros Hblank a2 a3. unfold translateText.
    destruct (languagesOf a2 a3) as [targetLanguage sourceLanguage].
    rewrite Hblank. simpl. rewrite orb_true_r. reflexivity.
  - intros detected target. unfold csvUpdate.
    rewrite differs_same, andb_false_r. reflexivity.
Qed.

(** The theorem at a white-space text and at English to English. *)
Lemma same_language_and_blank_text_unchanged_witness :
  translateText (tableHost []) (js "hello") (Code "en") (Some "en"%string)
    (freshState idiomFiles) = (Ok (js "hello"), freshState idiomFiles)
  /\ translateText (tableHost []) (js "  ") (Code "hi") (Some "en"%string)
       (freshState idiomFiles) = (Ok (js "  "), freshState idiomFiles).
Proof.
  split.
  - destruct (same_language_and_blank_text_unchanged
                (tableHost []) (freshState idiomFiles) (js "hello"))
      as (Hsame & _).
    apply Hsame.
  - destruct (same_language_and_blank_text_unchanged
                (tableHost []) (freshState idiomFiles) (js "  "))
      as (_ & Hblank & _).
    apply Hblank. reflexivity.
Defined.

(** C10.  With an options object as second argument the target and the
    source language are read from the object: a field that is there (and
    is not the empty string) is the language, whatever it is, and a field
    that is absent (or empty) gives ['en']; the third argument is not
    looked at.  So [translateText(text, {})] returns the text unchanged
    and touches nothing. *)
Theorem options_object_defaults_to_english h st (text : jsstring)
    (options : Options) (a3 : option string) :
  let absent (o : option string) := o = None \/ o = Some ""%string in
  (forall t s,
      optTargetLanguage options = Some t -> t <> ""%string ->
      optSourceLanguage options = Some s -> s <> ""%string ->
      translateText h text (Opts options) a3 st
      = translateText h text (Code t) (Some s) st)
  /\ (forall s,
         absent (optTargetLanguage options) ->
         optSourceLanguage options = Some s -> s <> ""%string ->
         translateText h text (Opts options) a3 st
         = translateText h text (Code "en") (Some s) st)
  /\ (forall t,
         optTargetLanguage options = Some t -> t <> ""%string ->
         absent (optSourceLanguage options) ->
         translateText h text (Opts options) a3 st
         = translateText h text (Code t) (Some "en"%string) st)
  /\ (absent (optTargetLanguage options) ->
      absent (optSourceLanguage options) ->
      translateText h text (Opts options) a3 st = (Ok text, st)).
Proof.
  cbv zeta.
  assert (Hthere : forall x : string, x <> ""%string -> orEn (Some x) = x).
  { intros x Hx. unfold orEn. apply String.eqb_neq in Hx. rewrite Hx.
    reflexivity. }
  assert (Habsent : forall o : option string,
             o = None \/ o = Some ""%string -> orEn o = "en"%string).
  { intros o [-> | ->]; reflexivity. }
  split; [|split; [|split]].
  - intros t s Ht Hnt Hs Hns. unfold translateText, languagesOf.
    rewrite Ht, Hs, (Hthere t Hnt), (Hthere s Hns). reflexivity.
  - intros s Ht Hs Hns. unfold translateText, languagesOf.
    rewrite (Habsent _ Ht), Hs, (Hthere s Hns). reflexivity.
  - intros t Ht Hnt Hs. unfold translateText, languagesOf.
    rewrite Ht, (Habsent _ Hs), (Hthere t Hnt). reflexivity.
  - intros Ht Hs. unfold translateText, languagesOf.
    rewrite (Habsent _ Ht), (Habsent _ Hs). simpl.
    rewrite orb_true_r. reflexivity.
Qed.

(** The theorem at [translateText("hello", {})], which returns the text,
    and at [translateText("good morning", {targetLanguage: 'hi',
    sourceLanguage: 'en'}, 'ta')], which returns the Hindi idiom. *)
Lemma options_object_defaults_to_english_witness :
  translateText (tableHost []) (js "hello")
    (Opts {| optTargetLanguage := None; optSourceLanguage := None;
             optCulturalAdaptation := false |}) None (freshState idiomFiles)
  = (Ok (js "hello"), freshState idiomFiles)
  /\ fst (translateText (tableHost []) (js "good morning")
            (Opts {| optTargetLanguage := Some "hi"%string;
                     optSourceLanguage := Some "en"%string;
                     optCulturalAdaptation := false |})
            (Some "ta"%string) (freshState idiomFiles))
     = Ok suprabhat.
Proof.
  split.
  - destruct (options_object_defaults_to_english (tableHost [])
                (freshState idiomFiles) (js "hello")
                {| optTargetLanguage := None; optSourceLanguage := None;
                   optCulturalAdaptation := false |} None)
      as (_ & _ & _ & Hempty).
    apply Hempty; left; reflexivity.
  - destruct (options_object_defaults_to_english (tableHost [])
                (freshState idiomFiles) (js "good morning")
                {| optTargetLanguage := Some "hi"%string;
                   optSourceLanguage := Some "en"%string;
                   optCulturalAdaptation := false |} (Some "ta"%string))
      as (Hboth & _).
    rewrite (Hboth "hi"%string "en"%string eq_refl ltac:(discriminate)
               eq_refl ltac:(discriminate)).
    reflexivity.
Defined.

(** The value of [translateText] when no idiom is found. *)
Lemma translateText_value h text tgt src st :
  truthy (trim text) = true -> src <> tgt ->
  idiomOf h (files st) text src tgt = None ->
  fst (translateText h text (Code tgt) (Some src) st)
  = match engineOf h (modelCache st) text src tgt with
    | Ok localResult =>
        Ok match phraseOf h (files st) text src tgt with
           | Some phrase => phrase
           | None => if differs h localResult text then localResult else text
           end
    | Throw e => Throw e
    end.
Proof.
  intros Hblank Hne Hidiom.
  rewrite translateText_steps, Hidiom by assumption.
  pose proof (localPromise_value h text src tgt
                (addEvents (phraseReads h (files st) src tgt
                            ++ idiomReads src tgt) st)) as Hv.
  simpl modelCache in Hv.
  destruct (localPromise h text src tgt _) as [[r|e] st']; simpl in Hv;
    rewrite <- Hv; [|reflexivity].
  simpl. symmetry in Hv.
  rewrite (engineOf_truthy _ _ _ _ _ _ (truthy_trim _ Hblank) Hv).
  reflexivity.
Qed.

(** C5, as the code has it.  For a request past the short circuit with
    no idiom hit.  When the engine produces a result: a phrase-cache hit
    is returned whatever the engine produced; without one, the engine
    result is returned when its trimmed, lower-cased form is not that of
    the text, and the text itself when it is.  When the engine fails,
    [translateText] raises the engine's error and returns nothing,
    whether or not the phrase cache has the phrase. *)
Theorem phrase_cache_wins_over_engine h st (text : jsstring) tgt src :
  truthy (trim text) = true -> src <> tgt ->
  idiomOf h (files st) text src tgt = None ->
  (forall localResult,
      engineOf h (modelCache st) text src tgt = Ok localResult ->
      (forall phrase,
          phraseOf h (files st) text src tgt = Some phrase ->
          fst (translateText h text (Code tgt) (Some src) st) = Ok phrase)
      /\ (phraseOf h (files st) text src tgt = None ->
          toLowerCase h (trim localResult) <> toLowerCase h (trim text) ->
          fst (translateText h text (Code tgt) (Some src) st)
          = Ok localResult)
      /\ (phraseOf h (files st) text src tgt = None ->
          toLowerCase h (trim localResult) = toLowerCase h (trim text) ->
          fst (translateText h text (Code tgt) (Some src) st) = Ok text))
  /\ (forall e,
         engineOf h (modelCache st) text src tgt = Throw e ->
         fst (translateText h text (Code tgt) (Some src) st) = Throw e).
Proof.
  intros Hblank Hne Hidiom.
  rewrite translateText_value by assumption. split.
  - intros localResult ->. split; [|split].
    + intros phrase ->. reflexivity.
    + intros -> Hdiff. unfold differs.
      destruct (streq _ _) eqn:Heq; [|reflexivity].
      apply streq_true in Heq. contradiction.
    + intros -> Hsame. unfold differs.
      rewrite (proj2 (streq_true _ _) Hsame). reflexivity.
  - intros e ->. reflexivity.
Qed.

(** The theorem at "Hello " with a cached phrase and an engine that would
    answer otherwise (the cached phrase is returned), at "hello" with no
    cached phrase and an engine that translates it (the engine's result),
    at "hello" with an engine that hands it back (the text), and at an
    engine that cannot be loaded (the error). *)
Lemma phrase_cache_wins_over_engine_witness :
  fst (translateText (tableHost [(js "Hello ", namaskar)]) (js "Hello ")
         (Code "hi") (Some "en"%string) (freshState phraseFiles))
  = Ok namaste
  /\ fst (translateText (tableHost [(js "hello", namaskar)]) (js "hello")
            (Code "hi") (Some "en"%string) (freshState ∅))
     = Ok namaskar
  /\ fst (translateText (tableHost []) (js "hello")
            (Code "hi") (Some "en"%string) (freshState ∅))
     = Ok (js "hello")
  /\ fst (translateText noEngineHost (js "hello")
            (Code "hi") (Some "en"%string) (freshState phraseFiles))
     = Throw LoadFailed.
Proof.
  split; [|split; [|split]].
  - destruct (phrase_cache_wins_over_engine
                (tableHost [(js "Hello ", namaskar)]) (freshState phraseFiles)
                (js "Hello ") "hi"%string "en"%string
                eq_refl ltac:(discriminate) eq_refl) as (Hok & _).
    destruct (Hok namaskar eq_refl) as (Hphrase & _).
    apply Hphrase. reflexivity.
  - destruct (phrase_cache_wins_over_engine
                (tableHost [(js "hello", namaskar)]) (freshState ∅)
                (js "hello") "hi"%string "en"%string
                eq_refl ltac:(discriminate) eq_refl) as (Hok & _).
    destruct (Hok namaskar eq_refl) as (_ & Hengine & _).
    apply Hengine; [reflexivity | discriminate].
  - destruct (phrase_cache_wins_over_engine
                (tableHost []) (freshState ∅)
                (js "hello") "hi"%string "en"%string
                eq_refl ltac:(discriminate) eq_refl) as (Hok & _).
    destruct (Hok (js "hello") eq_refl) as (_ & _ & Hecho).
    apply Hecho; reflexivity.
  - destruct (phrase_cache_wins_over_engine
                noEngineHost (freshState phraseFiles)
                (js "hello") "hi"%string "en"%string
                eq_refl ltac:(discriminate) eq_refl) as (_ & Hfail).
    apply Hfail. reflexivity.
Defined.

(** C5 fails where the engine fails: "hello" has no idiom and no cached
    phrase, the model cannot be loaded, and [translateText] raises
    instead of returning the text unchanged. *)
Lemma engine_failure_is_raised_not_echoed :
  idiomOf noEngineHost ∅ (js "hello") "en" "hi" = None
  /\ phraseOf noEngineHost ∅ (js "hello") "en" "hi" = None
  /\ fst (translateText noEngineHost (js "hello") (Code "hi")
            (Some "en"%string) (freshState ∅))
     = Throw LoadFailed
  /\ fst (translateText noEngineHost (js "hello") (Code "hi")
            (Some "en"%string) (freshState ∅))
     <> Ok (js "hello").
Proof. repeat split; vm_compute; discriminate. Qed.

(** C2, as the code has it.  [translateText] raises exactly when the
    request gets past the short circuit and the idiom lookup and the
    engine then fails (the model does not load, or its invocation throws),
    with the engine's error and whether or not the phrase cache holds the
    phrase.  A blank text, equal languages and an idiom hit never raise. *)
Theorem translateText_raises_iff_engine_fails h st (text : jsstring)
    tgt src e :
  fst (translateText h text (Code tgt) (Some src) st) = Throw e
  <-> truthy (trim text) = true /\ src <> tgt
      /\ idiomOf h (files st) text src tgt = None
      /\ engineOf h (modelCache st) text src tgt = Throw e.
Proof.
  split.
  - intros Hthrow.
    destruct (truthy (trim text)) eqn:Hblank.
    2: { rewrite translateText_shortcut in Hthrow by auto. discriminate. }
    destruct (String.eqb_spec src tgt) as [->|Hne].
    { rewrite translateText_shortcut in Hthrow by auto. discriminate. }
    destruct (idiomOf h (files st) text src tgt) as [idiom|] eqn:Hidiom.
    { rewrite translateText_steps, Hidiom in Hthrow by assumption.
      discriminate. }
    rewrite translateText_value in Hthrow by assumption.
    destruct (engineOf h (modelCache st) text src tgt); [discriminate|].
    injection Hthrow as ->. auto.
  - intros (Hblank & Hne & Hidiom & Hengine).
    rewrite translateText_value, Hengine by assumption. reflexivity.
Qed.

(** C2 fails: the phrase cache holds "hello" for English to Hindi, the
    model cannot be loaded, and [translateText] raises instead of
    returning the cached phrase or the text. *)
Lemma translateText_raises_despite_phrase_hit :
  phraseOf noEngineHost phraseFiles (js "hello") "en" "hi" = Some namaste
  /\ fst (translateText noEngineHost (js "hello") (Code "hi")
            (Some "en"%string) (freshState phraseFiles))
     = Throw LoadFailed.
Proof. split; reflexivity. Qed.

(** ** The engine: pivot and language codes *)

Lemma invocations_app evs tr :
  invocations (evs ++ tr) = invocations tr ++ invocations evs.
Proof.
  unfold invocations. rewrite omap_app, rev_app_distr. reflexivity.
Qed.

Lemma invocations_translate text s t tr :
  invocations (EvTranslate text s t :: tr) = invocations tr ++ [(text, s, t)].
Proof. reflexivity. Qed.

Lemma invocations_loadEvents mc : invocations (loadEvents mc) = [].
Proof. unfold loadEvents. destruct (translator mc || translatorPromise mc); reflexivity. Qed.

Lemma nllbCode_unsupported (code : string) :
  ~ In code ["en"; "hi"; "mr"; "ta"; "te"]%string ->
  nllbLangMap !! code = None
  /\ nllbCode code = if bool_decide (code ∈ objectPrototype)
                     then Inherited code else NllbCode "eng_Latn".
Proof.
  intros Hnot. simpl in Hnot.
  assert (Hnone : nllbLangMap !! code = None).
  { unfold nllbLangMap. simpl.
    rewrite !lookup_insert_ne by (intros <-; tauto).
    apply lookup_empty. }
  split; [exact Hnone|]. unfold nllbCode. rewrite Hnone. reflexivity.
Qed.

(** C7, as the code has it.  With the model available: [localTranslate]
    invokes the model once, from the source to the target code, whatever
    the two languages are.  The pivot is made by the engine branch of
    [translateText]: when one end is English it is one [localTranslate];
    when neither is, it invokes the model twice, from the source to
    English and then on that result from English to the target, and only
    the result of the second invocation is handed on.  A language code
    that is neither one of the five keys of [nllbLangMap] nor the name of
    a property of [Object.prototype] is sent to the model as the English
    code. *)
Theorem engine_pivots_through_english h st (text : jsstring) src tgt :
  translator (modelCache st) || pipelineResolves h = true ->
  (fst (localTranslate h text src tgt st) = answerOf h text src tgt
   /\ invocations (trace (snd (localTranslate h text src tgt st)))
      = invocations (trace st) ++ [(text, nllbCode src, nllbCode tgt)])
  /\ (src = "en"%string \/ tgt = "en"%string ->
      localPromise h text src tgt st = localTranslate h text src tgt st)
  /\ (src <> "en"%string -> tgt <> "en"%string ->
      forall intermediate,
        answerOf h text src "en" = Ok intermediate ->
        fst (localPromise h text src tgt st)
        = answerOf h intermediate "en" tgt
        /\ invocations (trace (snd (localPromise h text src tgt st)))
           = invocations (trace st)
             ++ [(text, nllbCode src, NllbCode "eng_Latn");
                 (intermediate, NllbCode "eng_Latn", nllbCode tgt)])
  /\ (forall code, ~ In code ["en"; "hi"; "mr"; "ta"; "te"]%string ->
                   ~ In code objectPrototype ->
                   nllbCode code = NllbCode "eng_Latn")
  /\ nllbCode "en" = NllbCode "eng_Latn".
Proof.
  intros Hload. split; [|split; [|split; [|split]]].
  - rewrite localTranslate_run, Hload. simpl. split; [reflexivity|].
    rewrite invocations_translate, invocations_app, invocations_loadEvents,
      app_nil_r.
    reflexivity.
  - intros Hen. unfold localPromise.
    assert (Hdirect : String.eqb src "en" || String.eqb tgt "en" = true).
    { destruct Hen as [-> | ->]; [reflexivity|].
      rewrite String.eqb_refl. apply orb_true_r. }
    rewrite Hdirect. reflexivity.
  - intros Hs Ht intermediate Hmid.
    rewrite localPromise_run. cbv zeta. rewrite Hload.
    apply String.eqb_neq in Hs, Ht. rewrite Hs, Ht, Hmid. simpl.
    split; [reflexivity|].
    rewrite !invocations_translate, invocations_app, invocations_loadEvents,
      app_nil_r, <- app_assoc.
    reflexivity.
  - intros code Hcode Hproto.
    destruct (nllbCode_unsupported code Hcode) as [_ ->].
    rewrite bool_decide_eq_false_2; [reflexivity|].
    intros Hin. apply Hproto, list_elem_of_In, Hin.
  - reflexivity.
Qed.

(** The theorem at Hindi to Tamil through [translateText]'s engine branch
    (two invocations), at English to Hindi (one) and at the unsupported
    code ["fr"]. *)
Lemma engine_pivots_through_english_witness :
  invocations (trace (snd (localPromise (tableHost [(namaste, js "hello")])
                             namaste "hi" "ta" (freshState idiomFiles))))
  = [(namaste, NllbCode "hin_Deva", NllbCode "eng_Latn");
     (js "hello", NllbCode "eng_Latn", NllbCode "tam_Taml")]
  /\ invocations (trace (snd (localTranslate (tableHost [])
                                (js "hello") "en" "hi" (freshState idiomFiles))))
     = [(js "hello", NllbCode "eng_Latn", NllbCode "hin_Deva")]
  /\ nllbCode "fr" = NllbCode "eng_Latn".
Proof.
  split; [|split].
  - destruct (engine_pivots_through_english (tableHost [(namaste, js "hello")])
                (freshState idiomFiles) namaste "hi" "ta" eq_refl)
      as (_ & _ & Hpivot & _).
    apply (Hpivot ltac:(discriminate) ltac:(discriminate) (js "hello") eq_refl).
  - destruct (engine_pivots_through_english (tableHost [])
                (freshState idiomFiles) (js "hello") "en" "hi" eq_refl)
      as ((_ & Hone) & _).
    exact Hone.
  - destruct (engine_pivots_through_english (tableHost [])
                (freshState idiomFiles) (js "hello") "en" "hi" eq_refl)
      as (_ & _ & _ & Hcode & _).
    apply Hcode; simpl; intuition discriminate.
Defined.

(** C7 fails for [localTranslate], the engine itself: asked for Hindi to
    Tamil it invokes the model once, from Hindi to Tamil, with no step
    through English; and the code ["constructor"], which is not
    supported, is not sent as the English code. *)
Lemma localTranslate_makes_no_pivot :
  invocations (trace (snd (localTranslate (tableHost [(namaste, js "hello")])
                             namaste "hi" "ta" (freshState ∅))))
  = [(namaste, NllbCode "hin_Deva", NllbCode "tam_Taml")]
  /\ nllbLangMap !! "constructor"%string = None
  /\ nllbCode "constructor" = Inherited "constructor"
  /\ nllbCode "constructor" <> NllbCode "eng_Latn".
Proof. repeat split; vm_compute; discriminate. Qed.

(** ** The route and its CSV update *)

Lemma preprocessStep_state h req st : snd (preprocessStep h req st) = st.
Proof.
  unfold preprocessStep.
  destruct (default true (reqEnablePreprocessing req)); [|reflexivity].
  destruct (preprocessText h (reqText req)); reflexivity.
Qed.

(** The handler, step by step, once preprocessing has answered. *)
Lemma translateRoute_steps h req st p fl :
  fst (preprocessStep h req st) = Ok (p, fl) ->
  translateRoute h req st
  = match translateText h p (Code (reqTargetLanguage req))
            (Some (detectedOf p)) st with
    | (Ok t, st1) =>
        match csvUpdate h p t (detectedOf p) (reqTargetLanguage req) st1 with
        | (Ok _, st2) => (okResponse req p fl t (detectedOf p), st2)
        | (Throw e, st2) => (fallbackResponse req e, st2)
        end
    | (Throw e, st1) => (fallbackResponse req e, st1)
    end.
Proof.
  intros Hpre. unfold translateRoute, routeTry.
  unfold mbind at 1. unfold M_bind at 1.
  pose proof (preprocessStep_state h req st) as Hst.
  destruct (preprocessStep h req st) as [res st0]. simpl in Hpre, Hst.
  subst res st0.
  unfold mbind at 1. unfold M_bind at 1.
  destruct (translateText h p _ _ st) as [[t|e] st1]; [|reflexivity].
  unfold mbind at 1. unfold M_bind at 1.
  destruct (csvUpdate h p t _ _ st1) as [[[]|e] st2]; reflexivity.
Qed.

Lemma afterFailure_other fs f kept reached f' :
  f' <> f -> afterFailure fs f kept reached !! f' = fs !! f'.
Proof.
  intros Hne. unfold afterFailure. destruct reached; [|reflexivity].
  apply lookup_insert_ne. auto.
Qed.

Lemma writeFileSync_run h f data st :
  writeFileSync h f data st
  = if writeFails h f
    then (Throw EIO,
          {| files := afterFailure (files st) f [] (writeLeaves h f data);
             modelCache := modelCache st;
             trace := EvWrite f data :: trace st |})
    else (Ok tt, {| files := <[f := toWellFormed data]> (files st);
                    modelCache := modelCache st;
                    trace := EvWrite f data :: trace st |}).
Proof. unfold writeFileSync. mrun. destruct (writeFails h f); reflexivity. Qed.

(** When the [try] block of the update throws, no file but the pair's
    can have changed. *)
Lemma csvUpdateTry_throw_files h csv p t st e st1 :
  csvUpdateTry h csv p t st = (Throw e, st1) ->
  (forall f, f <> csv -> files st1 !! f = files st !! f)
  /\ modelCache st1 = modelCache st.
Proof.
  unfold csvUpdateTry, existsSync, readFileSync, appendFileSync. mrun.
  case_bool_decide as Hex; simpl.
  - destruct (files st !! csv) as [content|]; simpl.
    + destruct (readFails h csv); simpl.
      * intros [= <- <-]. auto.
      * destruct (sourceListed h (splitLines content) _); simpl;
          [discriminate|].
        destruct (appendFails h csv); simpl; [|discriminate].
        intros [= <- <-]. split; [|reflexivity].
        intros f Hf. simpl. apply afterFailure_other, Hf.
    + intros [= <- <-]. auto.
  - destruct (appendFails h csv); simpl; [|discriminate].
    intros [= <- <-]. split; [|reflexivity].
    intros f Hf. simpl. apply afterFailure_other, Hf.
Qed.

(** The [try] block on a pair's file that is not there: the record is
    appended, which creates the file, or the append fails. *)
Lemma csvUpdateTry_missing h csv p t st :
  files st !! csv = None ->
  csvUpdateTry h csv p t st
  = if appendFails h csv
    then (Throw EIO,
          {| files := afterFailure (files st) csv []
                        (appendLeaves h csv (csvRecord p t));
             modelCache := modelCache st;
             trace := EvAppend csv (csvRecord p t) :: EvExists csv
                      :: trace st |})
    else (Ok tt,
          {| files := appended (files st) csv (csvRecord p t);
             modelCache := modelCache st;
             trace := EvAppend csv (csvRecord p t) :: EvExists csv
                      :: trace st |}).
Proof.
  intros Hnone. unfold csvUpdateTry, existsSync, appendFileSync. mrun.
  rewrite Hnone. simpl. rewrite Hnone.
  destruct (appendFails h csv); reflexivity.
Qed.

(** With working files the update never throws: it appends the record
    unless the translation is the text or the file lists the text, and it
    invokes no model. *)
Lemma csvUpdate_healthy h p t det tgt st :
  ioHealthy h ->
  exists evs,
    csvUpdate h p t det tgt st
    = (Ok tt,
       {| files := if truthy t && differs h t p
                      && negb (phraseListed h (files st) p det tgt)
                   then appended (files st) (csvFileOf det tgt) (csvRecord p t)
                   else files st;
          modelCache := modelCache st;
          trace := evs ++ trace st |})
    /\ invocations evs = [].
Proof.
  intros (_ & Hread & Happend & _).
  unfold csvUpdate, phraseListed.
  destruct (truthy t && differs h t p); simpl.
  2: { exists []. destruct st. auto. }
  unfold csvUpdateTry, existsSync, readFileSync, appendFileSync. mrun.
  rewrite Hread, Happend.
  destruct (files st !! csvFileOf det tgt) as [content|] eqn:Hcsv; simpl.
  - rewrite Hcsv. simpl.
    destruct (sourceListed h (splitLines content) _); simpl.
    + eexists [_; _]. split; reflexivity.
    + eexists [_; _; _]. split; reflexivity.
  - eexists [_; _]. split; reflexivity.
Qed.

(** C4, as the code has it.  When the [try] block of the CSV update
    throws (the file cannot be read, or the record cannot be appended),
    the [catch] calls [writeFileSync] on the pair's file with the one
    record.  If that write works, the request succeeds with the computed
    translation, and a pair's file that was not there before the request
    now holds just this record.  If it fails too, the exception reaches
    the handler's [catch]: the request ends with status 500 and the
    request text in place of the translation, and a pair's file that was
    not there before is still missing, or is there with what reached it
    before the write, or else the append, failed.  Either way no file but
    the pair's has changed. *)
Theorem cache_write_failure_outcome h st req (p : jsstring) fl
    (t : jsstring) st1 e st2 :
  fst (preprocessStep h req st) = Ok (p, fl) ->
  translateText h p (Code (reqTargetLanguage req)) (Some (detectedOf p)) st
  = (Ok t, st1) ->
  truthy t && differs h t p = true ->
  csvUpdateTry h (csvFileOf (detectedOf p) (reqTargetLanguage req)) p t st1
  = (Throw e, st2) ->
  fst (translateRoute h req st)
  = (if writeFails h (csvFileOf (detectedOf p) (reqTargetLanguage req))
     then fallbackResponse req EIO
     else okResponse req p fl t (detectedOf p))
  /\ (forall f,
         f <> csvFileOf (detectedOf p) (reqTargetLanguage req) ->
         files (snd (translateRoute h req st)) !! f = files st !! f)
  /\ (writeFails h (csvFileOf (detectedOf p) (reqTargetLanguage req)) = false ->
      files st !! csvFileOf (detectedOf p) (reqTargetLanguage req) = None ->
      files (snd (translateRoute h req st))
        !! csvFileOf (detectedOf p) (reqTargetLanguage req)
      = Some (toWellFormed (csvRecord p t)))
  /\ (writeFails h (csvFileOf (detectedOf p) (reqTargetLanguage req)) = true ->
      files st !! csvFileOf (detectedOf p) (reqTargetLanguage req) = None ->
      files (snd (translateRoute h req st))
        !! csvFileOf (detectedOf p) (reqTargetLanguage req)
      = match writeLeaves h (csvFileOf (detectedOf p) (reqTargetLanguage req))
                (csvRecord p t) with
        | Some part => Some part
        | None =>
            appendLeaves h (csvFileOf (detectedOf p) (reqTargetLanguage req))
              (csvRecord p t)
        end).
Proof.
  intros Hpre Htt Hdiff Htry.
  rewrite (translateRoute_steps _ _ _ _ _ Hpre), Htt.
  unfold csvUpdate. rewrite Hdiff. unfold tryCatch. rewrite Htry.
  rewrite writeFileSync_run.
  destruct (csvUpdateTry_throw_files _ _ _ _ _ _ _ Htry) as [Hf2 _].
  pose proof (translateText_files h p (reqTargetLanguage req)
                (detectedOf p) st) as Hf1.
  rewrite Htt in Hf1. simpl in Hf1.
  destruct (writeFails h _); simpl.
  - split; [reflexivity|]. split; [|split; [discriminate|]].
    + intros f Hf. rewrite afterFailure_other, Hf2, Hf1 by exact Hf.
      reflexivity.
    + intros _ Hnone. rewrite <- Hf1 in Hnone.
      rewrite (csvUpdateTry_missing _ _ _ _ _ Hnone) in Htry.
      destruct (appendFails h _); [|discriminate].
      injection Htry as _ <-. simpl. unfold afterFailure.
      destruct (writeLeaves h _ _) as [part|]; [apply lookup_insert_eq|].
      destruct (appendLeaves h _ _) as [part|];
        [apply lookup_insert_eq | exact Hnone].
  - split; [reflexivity|]. split; [|split; [|discriminate]].
    + intros f Hf. rewrite lookup_insert_ne, Hf2, Hf1 by auto. reflexivity.
    + intros _ _. apply lookup_insert_eq.
Qed.

(** The theorem where appending fails and writing works (the request
    succeeds and the new file holds the one record) and on a full disk
    (the request fails, and the file it could not fill is there, empty). *)
Lemma cache_write_failure_outcome_witness :
  (fst (translateRoute (noAppendHost [(js "hello", namaskar)])
          (toHindi (js "hello")) (freshState ∅))
   = okResponse (toHindi (js "hello")) (js "hello") noFlags namaskar "en"
   /\ files (snd (translateRoute (noAppendHost [(js "hello", namaskar)])
                    (toHindi (js "hello")) (freshState ∅)))
        !! "en-hi.csv"%string
      = Some (csvRecord (js "hello") namaskar))
  /\ (fst (translateRoute (fullDiskHost [(js "hello", namaskar)])
             (toHindi (js "hello")) (freshState ∅))
      = fallbackResponse (toHindi (js "hello")) EIO
      /\ files (snd (translateRoute (fullDiskHost [(js "hello", namaskar)])
                       (toHindi (js "hello")) (freshState ∅)))
           !! "en-hi.csv"%string
         = Some []).
Proof.
  split.
  - pose (h := noAppendHost [(js "hello", namaskar)]).
    pose (st1 := snd (translateText h (js "hello") (Code "hi")
                        (Some "en"%string) (freshState ∅))).
    pose (st2 := snd (csvUpdateTry h "en-hi.csv" (js "hello") namaskar st1)).
    assert (Htt : translateText h (js "hello") (Code "hi") (Some "en"%string)
                    (freshState ∅) = (Ok namaskar, st1)) by reflexivity.
    assert (Htry : csvUpdateTry h "en-hi.csv" (js "hello") namaskar st1
                   = (Throw EIO, st2)) by reflexivity.
    destruct (cache_write_failure_outcome h (freshState ∅)
                (toHindi (js "hello")) (js "hello") noFlags namaskar
                st1 EIO st2 eq_refl Htt eq_refl Htry)
      as (Hresp & _ & Hfile & _).
    split; [exact Hresp|]. exact (Hfile eq_refl eq_refl).
  - pose (h := fullDiskHost [(js "hello", namaskar)]).
    pose (st1 := snd (translateText h (js "hello") (Code "hi")
                        (Some "en"%string) (freshState ∅))).
    pose (st2 := snd (csvUpdateTry h "en-hi.csv" (js "hello") namaskar st1)).
    assert (Htt : translateText h (js "hello") (Code "hi") (Some "en"%string)
                    (freshState ∅) = (Ok namaskar, st1)) by reflexivity.
    assert (Htry : csvUpdateTry h "en-hi.csv" (js "hello") namaskar st1
                   = (Throw EIO, st2)) by reflexivity.
    destruct (cache_write_failure_outcome h (freshState ∅)
                (toHindi (js "hello")) (js "hello") noFlags namaskar
                st1 EIO st2 eq_refl Htt eq_refl Htry)
      as (Hresp & _ & _ & Hleft).
    split; [exact Hresp|]. exact (Hleft eq_refl eq_refl).
Defined.

(** C4 fails: on a data directory that cannot be written, the engine
    translates "hello", the append fails, the write in the [catch] fails
    as well, and the request ends with status 500 and "hello" itself as
    the translation. *)
Lemma cache_write_failure_fails_request :
  engineOf (readOnlyHost [(js "hello", namaskar)])
    (modelCache (freshState ∅)) (js "hello") "en" "hi" = Ok namaskar
  /\ fst (translateRoute (readOnlyHost [(js "hello", namaskar)])
            (toHindi (js "hello")) (freshState ∅))
     = fallbackResponse (toHindi (js "hello")) EIO
  /\ status (fallbackResponse (toHindi (js "hello")) EIO) = 500
  /\ translated (fallbackResponse (toHindi (js "hello")) EIO) = js "hello".
Proof. repeat split; vm_compute; reflexivity. Qed.

(** ** Idiom hits *)

Lemma findPhrase_key_nonempty h lines (s v : jsstring) :
  lowerKeepsEmptiness h ->
  findPhrase h lines (toLowerCase h s) = Some v -> s <> [].
Proof.
  intros Hlow. induction lines as [|line rest IH]; simpl; [discriminate|].
  destruct (truthy (srcOf line) && truthyO (tgtOf line)
            && streq (toLowerCase h (srcOf line)) (toLowerCase h s)) eqn:Hm;
    [|exact IH].
  intros _ ->. rewrite !andb_true_iff in Hm. destruct Hm as [[Hsrc _] Heq].
  apply streq_true in Heq.
  rewrite (proj2 (Hlow []) eq_refl) in Heq.
  apply (proj1 (Hlow _)) in Heq. rewrite Heq in Hsrc. discriminate.
Qed.

Ltac split_eqb :=
  repeat match goal with
         | H : context [String.eqb ?a ?b] |- _ =>
             destruct (String.eqb_spec a b); subst; simpl in H
         end.

(** The pairs that have an idiom file join two different languages, and
    the idiom file is not the phrase file of the pair. *)
Lemma idiomFileOf_some s t f :
  idiomFileOf s t = Some f -> s <> t /\ f <> csvFileOf s t.
Proof.
  unfold idiomFileOf. intros H. split_eqb; try discriminate;
    injection H as <-; split; discriminate.
Qed.

(** A text with an idiom entry is not blank, and its pair joins two
    different languages. *)
Lemma idiomOf_some h fs text s t v :
  lowerKeepsEmptiness h ->
  idiomOf h fs text s t = Some v ->
  truthy (trim text) = true /\ s <> t.
Proof.
  intros Hlow. unfold idiomOf.
  destruct (idiomFileOf s t) as [f|] eqn:Hf; simpl; [|discriminate].
  destruct (readOf h fs f) as [csv|]; simpl; [|discriminate].
  intros Hfind. split.
  - apply truthy_true. eapply findPhrase_key_nonempty; eauto.
  - apply (idiomFileOf_some _ _ _ Hf).
Qed.

(** The idiom table of a pair is not affected by an append to the pair's
    phrase file. *)
Lemma idiomOf_appended h fs text s t data :
  idiomOf h (appended fs (csvFileOf s t) data) text s t
  = idiomOf h fs text s t.
Proof.
  unfold idiomOf. destruct (idiomFileOf s t) as [f|] eqn:Hf; [|reflexivity].
  simpl. unfold readOf, appended.
  rewrite lookup_insert_ne; [reflexivity|].
  intros Heq. apply (idiomFileOf_some _ _ _ Hf). auto.
Qed.

Lemma invocations_idiomReads s t : invocations (idiomReads s t) = [].
Proof. unfold idiomReads. destruct (idiomFileOf s t); reflexivity. Qed.

Lemma engineCalls_addEvents evs st :
  engineCalls (addEvents evs st)
  = (engineCalls st + length (invocations evs))%nat.
Proof.
  unfold engineCalls. simpl. rewrite invocations_app, length_app.
  reflexivity.
Qed.

(** C1, as the code has it.  When the (preprocessed) text has an entry in
    the idiom table of the pair, [translateText] returns the entry's
    target and does nothing but read the idiom file: no phrase lookup, no
    engine call, no write.  The route then answers with that target, and
    its CSV update treats it like any translation: with working files the
    record is appended to the pair's phrase file unless the target equals
    the text (trimmed, lower-cased) or the file already lists the text;
    the engine is not invoked. *)
Theorem idiom_hit_returned_then_cached h st req (p : jsstring) fl
    (idiom : jsstring) :
  lowerKeepsEmptiness h -> ioHealthy h ->
  fst (preprocessStep h req st) = Ok (p, fl) ->
  idiomOf h (files st) p (detectedOf p) (reqTargetLanguage req) = Some idiom ->
  translateText h p (Code (reqTargetLanguage req)) (Some (detectedOf p)) st
  = (Ok idiom, addEvents (idiomReads (detectedOf p) (reqTargetLanguage req)) st)
  /\ fst (translateRoute h req st) = okResponse req p fl idiom (detectedOf p)
  /\ files (snd (translateRoute h req st))
     = (if differs h idiom p
           && negb (phraseListed h (files st) p (detectedOf p)
                      (reqTargetLanguage req))
        then appended (files st)
               (csvFileOf (detectedOf p) (reqTargetLanguage req))
               (csvRecord p idiom)
        else files st)
  /\ engineCalls (snd (translateRoute h req st)) = engineCalls st.
Proof.
  intros Hlow Hio Hpre Hidiom.
  destruct (idiomOf_some _ _ _ _ _ _ Hlow Hidiom) as [Hblank Hne].
  assert (Htt : translateText h p (Code (reqTargetLanguage req))
                  (Some (detectedOf p)) st
                = (Ok idiom,
                   addEvents (idiomReads (detectedOf p) (reqTargetLanguage req)) st)).
  { rewrite translateText_steps, Hidiom by assumption. reflexivity. }
  split; [exact Htt|].
  rewrite (translateRoute_steps _ _ _ _ _ Hpre), Htt.
  destruct (csvUpdate_healthy h p idiom (detectedOf p) (reqTargetLanguage req)
              (addEvents (idiomReads (detectedOf p) (reqTargetLanguage req)) st)
              Hio) as (evs & -> & Hevs).
  simpl. rewrite (idiomOf_truthy _ _ _ _ _ _ Hidiom). simpl.
  split; [reflexivity|]. split; [reflexivity|].
  unfold engineCalls. simpl.
  rewrite !invocations_app, Hevs, invocations_idiomReads, !app_nil_r.
  reflexivity.
Qed.

(** The theorem at "Good Morning" with the one-entry idiom table: the
    route answers with the idiom and has written it to [en-hi.csv]. *)
Lemma idiom_hit_returned_then_cached_witness :
  translated (fst (translateRoute (tableHost []) (toHindi (js "Good Morning"))
                     (freshState idiomFiles)))
  = suprabhat
  /\ engineCalls (snd (translateRoute (tableHost [])
                         (toHindi (js "Good Morning")) (freshState idiomFiles)))
     = 0%nat.
Proof.
  assert (Hlow : lowerKeepsEmptiness (tableHost [])).
  { intros s. simpl. unfold lowerAscii. split; [|intros ->; reflexivity].
    destruct s; [reflexivity | discriminate]. }
  assert (Hio : ioHealthy (tableHost [])) by (repeat split).
  destruct (idiom_hit_returned_then_cached (tableHost [])
              (freshState idiomFiles) (toHindi (js "Good Morning"))
              (js "Good Morning") noFlags suprabhat Hlow Hio eq_refl eq_refl)
    as (_ & Hresp & _ & Hcalls).
  split; [rewrite Hresp; reflexivity | exact Hcalls].
Defined.

(** C1 fails: "good morning" has an entry in the English to Hindi idiom
    table and there is no phrase file; after the request the phrase file
    [en-hi.csv] exists and holds the idiom as a record. *)
Lemma idiom_hit_is_written_to_phrase_cache :
  idiomOf (tableHost []) idiomFiles (js "good morning") "en" "hi"
  = Some suprabhat
  /\ idiomFiles !! "en-hi.csv"%string = None
  /\ translated (fst (translateRoute (tableHost [])
                        (toHindi (js "good morning")) (freshState idiomFiles)))
     = suprabhat
  /\ files (snd (translateRoute (tableHost [])
                   (toHindi (js "good morning")) (freshState idiomFiles)))
       !! "en-hi.csv"%string
     = Some (csvRecord (js "good morning") suprabhat).
Proof. repeat split; vm_compute; reflexivity. Qed.

(** ** Cache population *)

Lemma phraseListed_false_phraseOf h fs (p : jsstring) s t :
  phraseListed h fs p s t = false -> phraseOf h fs p s t = None.
Proof.
  unfold phraseListed, phraseOf, readOf. intros Hl.
  destruct (readdirFails h); [reflexivity|].
  destruct (fs !! csvFileOf s t) as [csv|]; [|reflexivity].
  destruct (readFails h (csvFileOf s t)); [reflexivity|]. simpl.
  apply findPhrase_none_unlisted, Hl.
Qed.

Lemma engineOf_loaded h mc (text : jsstring) s t r :
  engineOf h mc text s t = Ok r ->
  translator mc || pipelineResolves h = true.
Proof.
  unfold engineOf. destruct (translator mc || pipelineResolves h);
    [reflexivity | discriminate].
Qed.

(** A loaded model answers the same request the same way. *)
Lemma engineOf_cacheAfterLoad h mc (text : jsstring) s t :
  translator mc || pipelineResolves h = true ->
  engineOf h (cacheAfterLoad h mc) text s t = engineOf h mc text s t.
Proof.
  intros Hload. unfold engineOf.
  destruct (cacheAfterLoad_loaded h mc Hload) as (-> & _ & _).
  rewrite Hload. reflexivity.
Qed.

(** The state [translateText] leaves when the engine answered: files
    untouched, model cached, and at least one invocation recorded. *)
Lemma translateText_engine_state h (text : jsstring) tgt src st r :
  truthy (trim text) = true -> src <> tgt ->
  idiomOf h (files st) text src tgt = None ->
  engineOf h (modelCache st) text src tgt = Ok r ->
  exists evs,
    snd (translateText h text (Code tgt) (Some src) st) = engineState h evs st
    /\ (0 < length (invocations evs))%nat.
Proof.
  intros Hblank Hne Hidiom Hengine.
  rewrite translateText_steps, Hidiom by assumption.
  rewrite localPromise_run. cbv zeta. simpl modelCache.
  pose proof (engineOf_loaded _ _ _ _ _ _ Hengine) as Hload.
  unfold engineOf in Hengine. rewrite Hload in *.
  set (lookups := phraseReads h (files st) src tgt ++ idiomReads src tgt).
  destruct (String.eqb src "en" || String.eqb tgt "en").
  - rewrite Hengine. simpl.
    exists (EvTranslate text (nllbCode src) (nllbCode tgt)
              :: loadEvents (modelCache st) ++ lookups).
    split.
    + unfold engineState. simpl. rewrite <- app_assoc. reflexivity.
    + rewrite invocations_translate, length_app. simpl. lia.
  - destruct (answerOf h text src "en") as [mid|e]; [|discriminate].
    rewrite Hengine. simpl.
    exists (EvTranslate mid (nllbCode "en") (nllbCode tgt)
              :: EvTranslate text (nllbCode src) (nllbCode "en")
              :: loadEvents (modelCache st) ++ lookups).
    split.
    + unfold engineState. simpl. rewrite <- app_assoc. reflexivity.
    + rewrite invocations_translate, length_app. simpl. lia.
Qed.

(** One request through the route on the engine path, files working. *)
Lemma translateRoute_engine_path h st req (p : jsstring) fl (r : jsstring) :
  ioHealthy h ->
  fst (preprocessStep h req st) = Ok (p, fl) ->
  truthy (trim p) = true -> detectedOf p <> reqTargetLanguage req ->
  idiomOf h (files st) p (detectedOf p) (reqTargetLanguage req) = None ->
  engineOf h (modelCache st) p (detectedOf p) (reqTargetLanguage req) = Ok r ->
  forall t,
    t = match phraseOf h (files st) p (detectedOf p) (reqTargetLanguage req) with
        | Some phrase => phrase
        | None => if differs h r p then r else p
        end ->
    exists evs,
      translateRoute h req st
      = (okResponse req p fl t (detectedOf p),
         {| files := if truthy t && differs h t p
                        && negb (phraseListed h (files st) p (detectedOf p)
                                   (reqTargetLanguage req))
                     then appended (files st)
                            (csvFileOf (detectedOf p) (reqTargetLanguage req))
                            (csvRecord p t)
                     else files st;
            modelCache := cacheAfterLoad h (modelCache st);
            trace := evs ++ trace st |})
      /\ (0 < length (invocations evs))%nat.
Proof.
  intros Hio Hpre Hblank Hne Hidiom Hengine t Ht.
  rewrite (translateRoute_steps _ _ _ _ _ Hpre).
  pose proof (translateText_value h p _ _ st Hblank Hne Hidiom) as Hv.
  rewrite Hengine, <- Ht in Hv.
  destruct (translateText_engine_state h p _ _ st r Hblank Hne Hidiom Hengine)
    as (evs1 & Hst & Hcalls).
  destruct (translateText h p _ _ st) as [res st1]. simpl in Hv, Hst.
  subst res st1.
  destruct (csvUpdate_healthy h p t (detectedOf p) (reqTargetLanguage req)
              (engineState h evs1 st) Hio) as (evs2 & -> & Hevs2).
  exists (evs2 ++ evs1). split.
  - simpl. rewrite <- app_assoc. reflexivity.
  - rewrite invocations_app, length_app. lia.
Qed.

Lemma preprocessStep_value h req st st' :
  fst (preprocessStep h req st) = fst (preprocessStep h req st').
Proof.
  unfold preprocessStep.
  destruct (default true (reqEnablePreprocessing req)); [|reflexivity].
  destruct (preprocessText h (reqText req)); reflexivity.
Qed.

Lemma csvRecord_wellFormed (p r : jsstring) :
  plain (trim p) = true -> plain (trim r) = true ->
  toWellFormed (csvRecord p r) = csvRecord p r.
Proof.
  intros HP HR. unfold csvRecord.
  destruct (plain_spec _ HP) as (_ & _ & HPs).
  destruct (plain_spec _ HR) as (_ & _ & HRs).
  change ([QUOTE] ++ trim p ++ [QUOTE; COMMA; QUOTE] ++ trim r ++ [QUOTE; LF])
    with (QUOTE :: (trim p ++ QUOTE :: COMMA :: QUOTE
                               :: (trim r ++ [QUOTE; LF]))).
  rewrite toWellFormed_cons. change (isHighSurrogate QUOTE) with false.
  change (isLowSurrogate QUOTE) with false. cbv iota.
  rewrite (toWellFormed_app _ _ HPs).
  rewrite !toWellFormed_cons. change (isHighSurrogate QUOTE) with false.
  change (isLowSurrogate QUOTE) with false.
  change (isHighSurrogate COMMA) with false.
  change (isLowSurrogate COMMA) with false. cbv iota.
  rewrite (toWellFormed_app _ _ HRs). reflexivity.
Qed.

(** What the lookups see in the pair's file after the append. *)
Lemma lookups_after_append h fs (p r : jsstring) s t :
  ioHealthy h ->
  phraseListed h fs p s t = false ->
  plain (trim p) = true -> plain (trim r) = true ->
  truthy (trim p) = true -> truthy (trim r) = true ->
  endsLine (default [] (fs !! csvFileOf s t)) = true ->
  phraseOf h (appended fs (csvFileOf s t) (csvRecord p r)) p s t
  = Some (trim r)
  /\ phraseListed h (appended fs (csvFileOf s t) (csvRecord p r)) p s t = true.
Proof.
  intros (Hdir & Hread & _) Hl HP HR HtP HtR Hend.
  assert (Hold : sourceListed h (splitLines (default [] (fs !! csvFileOf s t)))
                   (toLowerCase h (trim p)) = false).
  { unfold phraseListed in Hl.
    destruct (fs !! csvFileOf s t); [exact Hl | reflexivity]. }
  destruct (lookup_after_append h _ p r Hend Hold HP HR HtP HtR)
    as [Hfind Hlisted].
  unfold phraseOf, phraseListed, readOf, appended.
  rewrite Hdir, lookup_insert_eq, Hread, csvRecord_wellFormed by assumption.
  simpl. auto.
Qed.

(** C3, as the code has it.  Take a request, with working files, whose
    (preprocessed) text is not blank, has no idiom entry and is not listed
    in the pair's phrase file, and for which the engine produces a result
    that differs from the text after trimming and lower-casing.  The route
    answers with the engine result, and the pair's phrase file is the old
    content (nothing, if the file was missing) followed by the one record
    of the trimmed text and the trimmed result; no other file changes.
    When moreover both trimmed fields are free of commas and line feeds
    and hold no surrogate outside a pair, the trimmed result is not empty
    and the old content ended its last line, the same request made again
    is answered with the cached (trimmed) result and adds no record; the
    engine is nevertheless invoked again, since [translateText] starts it
    alongside the phrase lookup. *)
Theorem novel_phrase_cached_once_engine_rerun h st req (p : jsstring) fl
    (r : jsstring) :
  ioHealthy h ->
  fst (preprocessStep h req st) = Ok (p, fl) ->
  truthy (trim p) = true -> detectedOf p <> reqTargetLanguage req ->
  idiomOf h (files st) p (detectedOf p) (reqTargetLanguage req) = None ->
  phraseListed h (files st) p (detectedOf p) (reqTargetLanguage req) = false ->
  engineOf h (modelCache st) p (detectedOf p) (reqTargetLanguage req) = Ok r ->
  differs h r p = true ->
  fst (translateRoute h req st) = okResponse req p fl r (detectedOf p)
  /\ files (snd (translateRoute h req st))
     = appended (files st) (csvFileOf (detectedOf p) (reqTargetLanguage req))
         (csvRecord p r)
  /\ (plain (trim p) = true -> plain (trim r) = true ->
      truthy (trim r) = true ->
      endsLine (default [] (files st !! csvFileOf (detectedOf p)
                                          (reqTargetLanguage req))) = true ->
      fst (translateRoute h req (snd (translateRoute h req st)))
      = okResponse req p fl (trim r) (detectedOf p)
      /\ files (snd (translateRoute h req (snd (translateRoute h req st))))
         = files (snd (translateRoute h req st))
      /\ (engineCalls (snd (translateRoute h req st))
          < engineCalls (snd (translateRoute h req
                                (snd (translateRoute h req st)))))%nat).
Proof.
  intros Hio Hpre Hblank Hne Hidiom Hlisted Hengine Hdiff.
  pose proof (phraseListed_false_phraseOf _ _ _ _ _ Hlisted) as Hphrase.
  pose proof (engineOf_truthy _ _ _ _ _ _ (truthy_trim _ Hblank) Hengine)
    as Hr.
  destruct (translateRoute_engine_path h st req p fl r Hio Hpre Hblank Hne
              Hidiom Hengine r) as (evs1 & Hrun1 & _).
  { rewrite Hphrase, Hdiff. reflexivity. }
  rewrite Hr, Hdiff, Hlisted in Hrun1. simpl in Hrun1. rewrite Hrun1.
  simpl. split; [reflexivity|]. split; [reflexivity|].
  intros HP HR HtR Hend.
  destruct (lookups_after_append h (files st) p r _ _ Hio Hlisted HP HR
              Hblank HtR Hend) as [Hphrase2 Hlisted2].
  set (st1 := {| files := appended (files st)
                            (csvFileOf (detectedOf p) (reqTargetLanguage req))
                            (csvRecord p r);
                 modelCache := cacheAfterLoad h (modelCache st);
                 trace := evs1 ++ trace st |}).
  destruct (translateRoute_engine_path h st1 req p fl r Hio) with (t := trim r)
    as (evs2 & Hrun2 & Hcalls2).
  - rewrite <- (preprocessStep_value h req st). exact Hpre.
  - exact Hblank.
  - exact Hne.
  - simpl. rewrite idiomOf_appended. exact Hidiom.
  - simpl. rewrite engineOf_cacheAfterLoad; [exact Hengine|].
    eapply engineOf_loaded, Hengine.
  - simpl. rewrite Hphrase2. reflexivity.
  - rewrite Hrun2. simpl files in *. rewrite Hlisted2.
    rewrite andb_false_r. simpl.
    split; [reflexivity|]. split; [reflexivity|].
    unfold engineCalls. simpl. rewrite !invocations_app, !length_app. lia.
Qed.

(** The theorem at "hello", first seen with an empty phrase cache, and
    at a translation that holds a surrogate pair (U+1F64F), which comes
    back from the cache whole. *)
Lemma novel_phrase_cached_once_engine_rerun_witness :
  files (snd (translateRoute (tableHost [(js "hello", namaskar)])
                (toHindi (js "hello")) (freshState ∅)))
  = appended ∅ "en-hi.csv" (csvRecord (js "hello") namaskar)
  /\ fst (translateRoute (tableHost [(js "hello", namaskar)])
            (toHindi (js "hello"))
            (snd (translateRoute (tableHost [(js "hello", namaskar)])
                    (toHindi (js "hello")) (freshState ∅))))
     = okResponse (toHindi (js "hello")) (js "hello") noFlags
         (trim namaskar) "en"
  /\ fst (translateRoute
            (tableHost [(js "hello", namaste ++ [0xD83D; 0xDE4F])])
            (toHindi (js "hello"))
            (snd (translateRoute
                    (tableHost [(js "hello", namaste ++ [0xD83D; 0xDE4F])])
                    (toHindi (js "hello")) (freshState ∅))))
     = okResponse (toHindi (js "hello")) (js "hello") noFlags
         (namaste ++ [0xD83D; 0xDE4F]) "en".
Proof.
  assert (Hio : forall table, ioHealthy (tableHost table))
    by (intros table; repeat split).
  split; [|split].
  - destruct (novel_phrase_cached_once_engine_rerun
                (tableHost [(js "hello", namaskar)]) (freshState ∅)
                (toHindi (js "hello")) (js "hello") noFlags namaskar
                (Hio _) eq_refl eq_refl ltac:(discriminate) eq_refl eq_refl
                eq_refl eq_refl) as (_ & Hfiles & _).
    exact Hfiles.
  - destruct (novel_phrase_cached_once_engine_rerun
                (tableHost [(js "hello", namaskar)]) (freshState ∅)
                (toHindi (js "hello")) (js "hello") noFlags namaskar
                (Hio _) eq_refl eq_refl ltac:(discriminate) eq_refl eq_refl
                eq_refl eq_refl) as (_ & _ & Hagain).
    destruct (Hagain eq_refl eq_refl eq_refl eq_refl) as (Hresp & _).
    exact Hresp.
  - destruct (novel_phrase_cached_once_engine_rerun
                (tableHost [(js "hello", namaste ++ [0xD83D; 0xDE4F])])
                (freshState ∅)
                (toHindi (js "hello")) (js "hello") noFlags
                (namaste ++ [0xD83D; 0xDE4F])
                (Hio _) eq_refl eq_refl ltac:(discriminate) eq_refl eq_refl
                eq_refl eq_refl) as (_ & _ & Hagain).
    destruct (Hagain eq_refl eq_refl eq_refl eq_refl) as (Hresp & _).
    exact Hresp.
Defined.

(** C3 fails: "hello" is translated by the engine and cached; the same
    request made again finds the cached phrase, and yet the model is
    invoked a second time. *)
Lemma repeated_request_invokes_engine_again :
  phraseOf (tableHost [(js "hello", namaskar)])
    (files (snd (translateRoute (tableHost [(js "hello", namaskar)])
                   (toHindi (js "hello")) (freshState ∅))))
    (js "hello") "en" "hi" = Some namaskar
  /\ engineCalls (snd (translateRoute (tableHost [(js "hello", namaskar)])
                         (toHindi (js "hello")) (freshState ∅))) = 1%nat
  /\ engineCalls
       (snd (translateRoute (tableHost [(js "hello", namaskar)])
               (toHindi (js "hello"))
               (snd (translateRoute (tableHost [(js "hello", namaskar)])
                       (toHindi (js "hello")) (freshState ∅))))) = 2%nat.
Proof. repeat split; vm_compute; reflexivity. Qed.

(** ** Concurrent first calls load the model once *)

Import EventLoop.

Lemma callerOk_Called tr pr c : c = Called -> callerOk tr pr c.
Proof. intros ->. exact I. Qed.

Lemma consistent_unloaded n : consistent (unloaded n).
Proof.
  unfold consistent, unloaded. simpl. repeat split; try discriminate.
  - apply Forall_replicate. reflexivity.
  - apply Forall_replicate. exact I.
Qed.

(** Every atomic action keeps the invariant. *)
Lemma step_consistent a s s' :
  consistent s -> step a s = Some s' -> consistent s'.
Proof.
  intros (HA & HB & HC & HD) Hstep. destruct a as [i | p ok | i]; simpl in Hstep.
  - destruct (callers s !! i) as [[| | |]|] eqn:Hi; try discriminate.
    destruct (cachedTranslator s) as [m|] eqn:Htr.
    + injection Hstep as <-. unfold consistent, setCaller. simpl.
      rewrite Htr. destruct (HC m eq_refl) as [-> Hpr]. rewrite Hpr in *.
      refine (conj _ (conj _ (conj _ _))).
      * discriminate.
      * exact HB.
      * intros m [= <-]. auto.
      * apply Forall_insert; [exact HD | reflexivity].
    + destruct (cachedPromise s) as [p|] eqn:Hpr.
      * injection Hstep as <-. unfold consistent, setCaller. simpl.
        rewrite Htr, Hpr.
        refine (conj _ (conj _ (conj _ _))).
        -- discriminate.
        -- exact HB.
        -- discriminate.
        -- apply Forall_insert; [exact HD | reflexivity].
      * injection Hstep as <-. destruct (HA eq_refl) as (Hnil & _ & Hall).
        unfold consistent. simpl. rewrite Hnil. simpl.
        refine (conj _ (conj _ (conj _ _))).
        -- discriminate.
        -- intros p [= <-]. auto.
        -- discriminate.
        -- apply Forall_insert; [|reflexivity].
           eapply Forall_impl; [exact Hall|]. intros c ->. exact I.
  - destruct (promises s !! p) as [[| |]|] eqn:Hp; try discriminate.
    injection Hstep as <-. unfold consistent. simpl.
    refine (conj _ (conj _ (conj _ _))).
    + intros Hnone. destruct (HA Hnone) as (Hnil & Htr & Hall).
      rewrite Hnil. auto.
    + intros q Hq. rewrite length_insert. apply (HB q Hq).
    + exact HC.
    + exact HD.
  - destruct (callers s !! i) as [[|p| |]|] eqn:Hi; try discriminate.
    assert (Hp : cachedPromise s = Some p).
    { apply (proj1 (Forall_lookup _ _) HD i _ Hi). }
    destruct (HB p Hp) as [-> Hlen].
    destruct (promises s !! 0%nat) as [[| |]|] eqn:Hpm; try discriminate.
    + injection Hstep as <-. unfold consistent. simpl. rewrite Hp.
      refine (conj _ (conj _ (conj _ _))).
      * discriminate.
      * intros q [= <-]. auto.
      * intros m [= <-]. auto.
      * apply Forall_insert; [|reflexivity].
        eapply Forall_impl; [exact HD|].
        intros c Hc. destruct c as [|q|m|]; simpl in *; auto.
        -- congruence.
        -- destruct (HC m Hc) as [-> _]. reflexivity.
    + injection Hstep as <-. unfold consistent, setCaller. simpl. rewrite Hp.
      refine (conj _ (conj _ (conj _ _))).
      * discriminate.
      * intros q [= <-]. auto.
      * intros m Hm. destruct (HC m Hm) as [-> _]. auto.
      * apply Forall_insert; [|simpl; eauto].
        rewrite <- Hp. exact HD.
Qed.

Lemma exec_consistent acts s s' :
  consistent s -> exec acts s = Some s' -> consistent s'.
Proof.
  revert s. induction acts as [|a rest IH]; simpl; intros s Hs Hexec.
  - injection Hexec as <-. exact Hs.
  - destruct (step a s) as [s1|] eqn:Hstep; [|discriminate].
    eapply IH; [|exact Hexec]. eapply step_consistent; eauto.
Qed.

Lemma exec_app acts1 acts2 s s1 :
  exec acts1 s = Some s1 -> exec (acts1 ++ acts2) s = exec acts2 s1.
Proof.
  revert s. induction acts1 as [|a rest IH]; simpl; intros s Hexec.
  - injection Hexec as <-. reflexivity.
  - destruct (step a s) as [s'|]; [|discriminate]. apply IH, Hexec.
Qed.

(** No action removes the cached translator or changes the number of
    callers. *)
Lemma step_keeps a s s' :
  step a s = Some s' ->
  (is_Some (cachedTranslator s) -> is_Some (cachedTranslator s'))
  /\ length (callers s') = length (callers s).
Proof.
  intros Hstep. destruct a as [i | p ok | i]; simpl in Hstep.
  - destruct (callers s !! i) as [[| | |]|]; try discriminate.
    destruct (cachedTranslator s) as [m|] eqn:Htr.
    + injection Hstep as <-. simpl. rewrite length_insert, Htr. eauto.
    + destruct (cachedPromise s); injection Hstep as <-; simpl;
        rewrite length_insert; (split; [intros [? ?]; discriminate | auto]).
  - destruct (promises s !! p) as [[| |]|]; try discriminate.
    injection Hstep as <-. simpl. auto.
  - destruct (callers s !! i) as [[|p| |]|]; try discriminate.
    destruct (promises s !! p) as [[| |]|]; try discriminate;
      injection Hstep as <-; simpl; rewrite length_insert; eauto.
Qed.

Lemma exec_keeps acts s s' :
  exec acts s = Some s' ->
  (is_Some (cachedTranslator s) -> is_Some (cachedTranslator s'))
  /\ length (callers s') = length (callers s).
Proof.
  revert s. induction acts as [|a rest IH]; simpl; intros s Hexec.
  - injection Hexec as <-. auto.
  - destruct (step a s) as [s1|] eqn:Hstep; [|discriminate].
    destruct (step_keeps _ _ _ Hstep) as [Hk Hl].
    destruct (IH _ Hexec) as [Hk' Hl']. split; [auto | congruence].
Qed.

(** In a state of the invariant a call that has started has loaded. *)
Lemma consistent_started s :
  consistent s -> started s -> loads s = 1%nat.
Proof.
  intros (HA & HB & _ & _) (i & c & Hi & Hc). unfold loads.
  destruct (cachedPromise s) as [p|] eqn:Hp.
  - apply (HB p eq_refl).
  - destruct (HA eq_refl) as (_ & _ & Hall). exfalso. apply Hc.
    apply (proj1 (Forall_lookup _ _) Hall i c Hi).
Qed.

(** C9.  Take any number of calls of [loadModel] against an engine that
    is not loaded, run in any order the event loop allows.  At every
    moment [pipeline] has been called at most once, and exactly once as
    soon as one call has started; every suspended call awaits the one
    cached promise; every call that has returned holds the cached
    instance; and once an instance is cached it stays cached, whatever
    runs later, with no further load. *)
Theorem single_model_load n acts s :
  exec acts (unloaded n) = Some s ->
  (loads s <= 1)%nat
  /\ (started s -> loads s = 1%nat)
  /\ (forall i p, callers s !! i = Some (Awaiting p) ->
                  cachedPromise s = Some p)
  /\ (forall i m, callers s !! i = Some (Returned m) ->
                  cachedTranslator s = Some m)
  /\ (forall m acts' s',
         cachedTranslator s = Some m -> exec acts' s = Some s' ->
         cachedTranslator s' = Some m /\ loads s' = 1%nat)
  /\ length (callers s) = n.
Proof.
  intros Hexec.
  pose proof (exec_consistent _ _ _ (consistent_unloaded n) Hexec) as Hs.
  pose proof Hs as (HA & HB & HC & HD).
  split; [|split; [|split; [|split; [|split]]]].
  - unfold loads. destruct (cachedPromise s) as [p|] eqn:Hp.
    + destruct (HB p eq_refl) as [_ ->]. lia.
    + destruct (HA eq_refl) as (-> & _). simpl. lia.
  - apply consistent_started, Hs.
  - intros i p Hi. apply (proj1 (Forall_lookup _ _) HD i _ Hi).
  - intros i m Hi. apply (proj1 (Forall_lookup _ _) HD i _ Hi).
  - intros m acts' s' Hm Hexec'.
    pose proof (exec_consistent _ _ _ Hs Hexec') as Hs'.
    pose proof Hs' as (_ & HB' & HC' & _).
    destruct (exec_keeps _ _ _ Hexec') as [Hkeep _].
    destruct (Hkeep (ex_intro _ m Hm)) as [m' Hm'].
    destruct (HC m Hm) as [-> _]. destruct (HC' m' Hm') as [-> Hp'].
    split; [exact Hm'|]. apply (HB' _ Hp').
  - destruct (exec_keeps _ _ _ Hexec) as [_ ->]. unfold unloaded. simpl.
    apply length_replicate.
Qed.

(** The theorem at three calls: two start before the model is there, the
    third after it; all return the one instance of the one load. *)
Lemma single_model_load_witness :
  exists s,
    exec [Run 0; Run 1; Settle 0 true; Resume 1; Run 2; Resume 0]
      (unloaded 3) = Some s
    /\ callers s = [Returned 0; Returned 0; Returned 0]
    /\ loads s = 1%nat.
Proof.
  eexists. split; [reflexivity|]. split; [reflexivity|].
  destruct (single_model_load 3
              [Run 0; Run 1; Settle 0 true; Resume 1; Run 2; Resume 0]
              _ eq_refl) as (_ & Hstarted & _).
  apply Hstarted.
  exists 0%nat, (Returned 0). split; [reflexivity | discriminate].
Defined.

(* ================================================================== *)
(** * Part III: more properties of the same code *)
(* ================================================================== *)

(** ** The lookups *)

(** X1.  Neither lookup ever throws, and neither changes a file or the
    model cache: each returns its value and adds its reads to the trace.
    A pair without idiom table, a missing file, a file that cannot be
    read and, for the phrase cache, a directory that cannot be listed are
    all a miss. *)
Theorem lookups_never_throw_missing_is_miss h (text : jsstring) s t st :
  lookupCulturalIdiom h text s t st
  = (Ok (idiomOf h (files st) text s t), addEvents (idiomReads s t) st)
  /\ getPhraseFromCSV h text s t st
     = (Ok (phraseOf h (files st) text s t),
        addEvents (phraseReads h (files st) s t) st)
  /\ (idiomFileOf s t = None -> idiomOf h (files st) text s t = None)
  /\ (forall f, idiomFileOf s t = Some f ->
                files st !! f = None \/ readFails h f = true ->
                idiomOf h (files st) text s t = None)
  /\ (readdirFails h = true \/ files st !! csvFileOf s t = None
      \/ readFails h (csvFileOf s t) = true ->
      phraseOf h (files st) text s t = None).
Proof.
  split; [apply lookupCulturalIdiom_run|].
  split; [apply getPhraseFromCSV_run|].
  unfold idiomOf, phraseOf, readOf. split; [|split].
  - intros ->. reflexivity.
  - intros f -> [Hnone | Hfail]; simpl.
    + rewrite Hnone. reflexivity.
    + rewrite Hfail. destruct (files st !! f); reflexivity.
  - intros [Hdir | [Hnone | Hfail]].
    + rewrite Hdir. reflexivity.
    + rewrite Hnone. destruct (readdirFails h); reflexivity.
    + rewrite Hfail. destruct (readdirFails h); [reflexivity|].
      destruct (files st !! csvFileOf s t); reflexivity.
Qed.

Lemma findPhrase_cons h line rest key :
  findPhrase h (line :: rest) key
  = if lineMatches h key line then tgtOf line else findPhrase h rest key.
Proof. reflexivity. Qed.

Lemma lineMatches_tgt h key line :
  lineMatches h key line = true -> exists v, tgtOf line = Some v.
Proof.
  unfold lineMatches. rewrite !andb_true_iff. intros [[_ Htgt] _].
  destruct (tgtOf line) as [v|]; [eauto | discriminate].
Qed.

(** X2.  A table is scanned from the top and the first line that
    answers wins: the lookup returns [v] exactly when the table splits
    into lines that do not answer, then a line that answers and has
    target [v], then anything; later lines for the same source, such as
    records appended afterwards, are never seen.  It returns nothing
    exactly when no line answers. *)
Theorem first_matching_line_wins h lines key :
  (forall v,
      findPhrase h lines key = Some v
      <-> exists before line after,
            lines = before ++ line :: after
            /\ Forall (fun l => lineMatches h key l = false) before
            /\ lineMatches h key line = true
            /\ tgtOf line = Some v)
  /\ (findPhrase h lines key = None
      <-> Forall (fun l => lineMatches h key l = false) lines).
Proof.
  split.
  - intros v. split.
    + induction lines as [|line rest IH]; [discriminate|].
      rewrite findPhrase_cons.
      destruct (lineMatches h key line) eqn:Hm.
      * intros Hv. exists [], line, rest. auto.
      * intros Hv. destruct (IH Hv) as (before & l & after & -> & Hb & Hl & Ht).
        exists (line :: before), l, after. repeat split; auto.
    + intros (before & line & after & -> & Hb & Hl & Ht).
      induction Hb as [|l before Hlm _ IH]; simpl app;
        rewrite findPhrase_cons.
      * rewrite Hl. exact Ht.
      * rewrite Hlm. exact IH.
  - induction lines as [|line rest IH].
    + split; [constructor | reflexivity].
    + rewrite findPhrase_cons, Forall_cons.
      destruct (lineMatches h key line) eqn:Hm.
      * destruct (lineMatches_tgt _ _ _ Hm) as [v ->].
        split; [discriminate | intros [? _]; discriminate].
      * rewrite IH. tauto.
Qed.

(** Trimming and quote stripping only take code units away. *)
Lemma trimStart_keeps (P : Z -> Prop) (s : jsstring) :
  Forall P s -> Forall P (trimStart s).
Proof.
  induction 1 as [|c r Hc Hr IH]; simpl; [constructor|].
  destruct (isWhiteSpace c); [exact IH | constructor; assumption].
Qed.

Lemma trim_keeps (P : Z -> Prop) (s : jsstring) :
  Forall P s -> Forall P (trim s).
Proof.
  intros H. unfold trim, trimEnd.
  apply Forall_rev, trimStart_keeps, Forall_rev, trimStart_keeps, H.
Qed.

Lemma stripQuotes_keeps (P : Z -> Prop) (s : jsstring) :
  Forall P s -> Forall P (stripQuotes s).
Proof.
  assert (Hlead : forall u : jsstring, Forall P u -> Forall P (stripLeadingQuote u)).
  { intros u Hu. destruct Hu as [|c r Hc Hr]; simpl; [constructor|].
    destruct (c =? QUOTE); [exact Hr | constructor; assumption]. }
  intros H. unfold stripQuotes, stripTrailingQuote.
  apply Forall_rev, Hlead, Forall_rev, Hlead, H.
Qed.

(** The pieces [split] cuts hold no separator and nothing new. *)
Lemma split_pieces sep (P : Z -> Prop) (s : jsstring) :
  Forall P s ->
  Forall (fun f => Forall (fun c => c <> sep /\ P c) f) (split sep s).
Proof.
  induction 1 as [|c r Hc Hr IH]; simpl; [repeat constructor|].
  destruct (Z.eqb_spec c sep) as [->|Hne].
  - constructor; [constructor | exact IH].
  - destruct (split sep r) as [|f fs]; [repeat constructor; auto|].
    inversion IH; subst. constructor; [constructor; auto | assumption].
Qed.

(** No line holds a line feed. *)
Lemma splitLines_pieces_bounded n (s : jsstring) :
  (length s <= n)%nat ->
  Forall (fun l => Forall (fun c => c <> LF) l) (splitLines s).
Proof.
  revert s. induction n as [|n IH]; intros s Hlen.
  - destruct s; [repeat constructor | simpl in Hlen; lia].
  - destruct s as [|c r]; [repeat constructor|]. simpl in Hlen.
    pose proof (IH r ltac:(lia)) as Hr.
    rewrite splitLines_cons. cbv zeta.
    assert (Hkeep : c <> LF ->
              Forall (fun l => Forall (fun c => c <> LF) l)
                match splitLines r with
                | l :: ls => (c :: l) :: ls
                | [] => [[c]]
                end).
    { intros Hc. destruct (splitLines r) as [|l ls]; [repeat constructor; auto|].
      inversion Hr; subst. constructor; [constructor; auto | assumption]. }
    destruct (Z.eqb_spec c LF) as [->|Hc].
    { constructor; [constructor | exact Hr]. }
    destruct (c =? CR); [|auto].
    destruct r as [|d r']; [auto|].
    destruct (d =? LF); [|auto].
    constructor; [constructor|]. apply IH. simpl in Hlen. lia.
Qed.

Lemma splitLines_pieces (s : jsstring) :
  Forall (fun l => Forall (fun c => c <> LF) l) (splitLines s).
Proof. apply (splitLines_pieces_bounded (length s)). lia. Qed.

(** Every field of a line without line feed is trimmed and free of
    commas and line feeds. *)
Lemma fieldsOf_clean (line : jsstring) :
  Forall (fun c => c <> LF) line ->
  Forall (fun f => trim f = f /\ Forall (fun c => c <> COMMA /\ c <> LF) f)
    (fieldsOf line).
Proof.
  intros Hline. unfold fieldsOf. apply Forall_map.
  eapply Forall_impl; [apply (split_pieces COMMA _ _ Hline)|].
  intros f Hf. simpl. split; [apply trim_idempotent|].
  apply trim_keeps, stripQuotes_keeps, Hf.
Qed.

Lemma findPhrase_clean h (csv key v : jsstring) :
  findPhrase h (splitLines csv) key = Some v ->
  v <> [] /\ trim v = v /\ Forall (fun c => c <> COMMA /\ c <> LF) v.
Proof.
  intros Hfind. split; [apply truthy_true, (findPhrase_truthy _ _ _ _ Hfind)|].
  pose proof (splitLines_pieces csv) as Hlines.
  induction (splitLines csv) as [|line rest IH]; [discriminate|].
  inversion Hlines as [|? ? Hline Hrest]; subst.
  rewrite findPhrase_cons in Hfind.
  destruct (lineMatches h key line); [|auto].
  unfold tgtOf in Hfind.
  apply (proj1 (Forall_lookup _ _) (fieldsOf_clean _ Hline) _ _ Hfind).
Qed.

(** X3.  Whatever the idiom table or the phrase cache returns is a
    non-empty field without white space at its ends and without comma or
    line feed: a recorded translation that holds a comma or a line feed
    never comes back whole. *)
Theorem lookup_results_are_clean_fields h fs (text : jsstring) s t
    (v : jsstring) :
  idiomOf h fs text s t = Some v \/ phraseOf h fs text s t = Some v ->
  v <> [] /\ trim v = v /\ Forall (fun c => c <> COMMA /\ c <> LF) v.
Proof.
  unfold idiomOf, phraseOf. intros [Hi | Hp].
  - destruct (idiomFileOf s t) as [f|]; simpl in Hi; [|discriminate].
    destruct (readOf h fs f) as [csv|]; simpl in Hi; [|discriminate].
    eapply findPhrase_clean, Hi.
  - destruct (readdirFails h); [discriminate|].
    destruct (readOf h fs (csvFileOf s t)) as [csv|]; simpl in Hp;
      [|discriminate].
    eapply findPhrase_clean, Hp.
Qed.

(** The theorem at a phrase file whose one record holds a comma in its
    target: what comes back is the part before the comma. *)
Lemma lookup_results_are_clean_fields_witness :
  phraseOf (tableHost [])
    {[ "en-hi.csv"%string :=
         [QUOTE] ++ js "yes" ++ [QUOTE; COMMA; QUOTE] ++ js "haan, ji"
         ++ [QUOTE; LF] ]}
    (js "yes") "en" "hi" = Some (js "haan")
  /\ Forall (fun c => c <> COMMA /\ c <> LF) (js "haan").
Proof.
  split; [reflexivity|].
  apply (lookup_results_are_clean_fields (tableHost [])
           {[ "en-hi.csv"%string :=
                [QUOTE] ++ js "yes" ++ [QUOTE; COMMA; QUOTE] ++ js "haan, ji"
                ++ [QUOTE; LF] ]}
           (js "yes") "en"%string "hi"%string (js "haan")).
  right. reflexivity.
Defined.

(** ** The route: what it touches, what it keeps *)

Ltac other_file :=
  intros ? ?; unfold appended;
  repeat first [ rewrite afterFailure_other by auto
               | rewrite lookup_insert_ne by auto ];
  reflexivity.

(** The CSV update, on any host: it leaves the model cache alone, all its
    events are about the pair's phrase file, and no other file changes. *)
Lemma csvUpdate_frame h (p t : jsstring) det tgt st :
  exists evs,
    modelCache (snd (csvUpdate h p t det tgt st)) = modelCache st
    /\ trace (snd (csvUpdate h p t det tgt st)) = evs ++ trace st
    /\ Forall (fun e => fileOf e = Some (csvFileOf det tgt)) evs
    /\ (forall f, f <> csvFileOf det tgt ->
                  files (snd (csvUpdate h p t det tgt st)) !! f
                  = files st !! f).
Proof.
  unfold csvUpdate.
  destruct (truthy t && differs h t p).
  2: { exists []. simpl. auto. }
  unfold csvUpdateTry, existsSync, readFileSync, appendFileSync,
    writeFileSync.
  mrun.
  case_bool_decide as Hex; simpl.
  - destruct (files st !! csvFileOf det tgt) as [content|]; simpl.
    + destruct (readFails h (csvFileOf det tgt)); simpl.
      * destruct (writeFails h (csvFileOf det tgt)); simpl;
          eexists [_; _; _]; repeat split; auto; other_file.
      * destruct (sourceListed h (splitLines content) _); simpl.
        { eexists [_; _]; repeat split; auto. }
        destruct (appendFails h (csvFileOf det tgt)); simpl.
        { destruct (writeFails h (csvFileOf det tgt)); simpl;
            eexists [_; _; _; _]; repeat split; auto; other_file. }
        eexists [_; _; _]; repeat split; auto; other_file.
    + destruct (writeFails h (csvFileOf det tgt)); simpl;
        eexists [_; _; _]; repeat split; auto; other_file.
  - destruct (appendFails h (csvFileOf det tgt)); simpl.
    + destruct (writeFails h (csvFileOf det tgt)); simpl;
        eexists [_; _; _]; repeat split; auto; other_file.
    + eexists [_; _]; repeat split; auto; other_file.
Qed.

(** When preprocessing throws, the handler's [catch] answers and nothing
    else has happened. *)
Lemma preprocess_failure h req st e :
  fst (preprocessStep h req st) = Throw e ->
  translateRoute h req st = (fallbackResponse req e, st).
Proof.
  intros Hpre. unfold translateRoute, routeTry.
  unfold mbind at 1. unfold M_bind at 1.
  pose proof (preprocessStep_state h req st) as Hst.
  destruct (preprocessStep h req st) as [res st0]. simpl in Hpre, Hst.
  subst res st0. reflexivity.
Qed.

(** The files after the route are those after its CSV update, if it got
    that far, and those before otherwise. *)
Lemma translateRoute_files h req st :
  files (snd (translateRoute h req st)) = files st
  \/ exists p fl t st1,
       fst (preprocessStep h req st) = Ok (p, fl)
       /\ files st1 = files st
       /\ files (snd (translateRoute h req st))
          = files (snd (csvUpdate h p t (detectedOf p)
                          (reqTargetLanguage req) st1)).
Proof.
  destruct (fst (preprocessStep h req st)) as [[p fl]|e] eqn:Hpre.
  2: { left. rewrite (preprocess_failure _ _ _ _ Hpre). reflexivity. }
  rewrite (translateRoute_steps _ _ _ _ _ Hpre).
  pose proof (translateText_files h p (reqTargetLanguage req) (detectedOf p) st)
    as Hf.
  destruct (translateText h p _ _ st) as [[t|e] st1]; simpl in Hf.
  - right. exists p, fl, t, st1. split; [reflexivity|]. split; [exact Hf|].
    destruct (csvUpdate h p t _ _ st1) as [[[]|e] st2]; reflexivity.
  - left. exact Hf.
Qed.

Lemma detectedOf_cases (p : jsstring) :
  In (detectedOf p) ["ta"; "te"; "hi"; "en"]%string.
Proof.
  unfold detectedOf, detectLanguage.
  destruct (tamilRegex p), (teluguRegex p), (hindiRegex p); simpl; auto.
Qed.

(** The phrase file of a detected language and a supported target is no
    idiom table. *)
Lemma csvFile_is_no_idiom_table (p : jsstring) tgt s t :
  In tgt supportedLangs ->
  idiomFileOf s t <> Some (csvFileOf (detectedOf p) tgt).
Proof.
  intros Htgt.
  pose proof (detectedOf_cases p) as Hdet.
  generalize dependent (detectedOf p). intros d Hdet Hidiom.
  unfold idiomFileOf in Hidiom. simpl in Htgt, Hdet.
  destruct Hdet as [<-|[<-|[<-|[<-|[]]]]];
    destruct Htgt as [<-|[<-|[<-|[<-|[<-|[]]]]]];
    split_eqb; discriminate.
Qed.

(** X4.  A request changes at most one file of the data directory: the
    phrase file of the pair (detected language, target language).  When
    the target is one of the five supported codes that file is no idiom
    table, so the idiom tables stay as they are.  This holds on every
    host, also when file operations fail. *)
Theorem route_changes_only_the_pair_file h req st f :
  files (snd (translateRoute h req st)) !! f <> files st !! f ->
  exists p fl,
    fst (preprocessStep h req st) = Ok (p, fl)
    /\ f = csvFileOf (detectedOf p) (reqTargetLanguage req)
    /\ (In (reqTargetLanguage req) supportedLangs ->
        forall s t, idiomFileOf s t <> Some f).
Proof.
  intros Hchanged.
  destruct (translateRoute_files h req st)
    as [Hsame | (p & fl & t & st1 & Hpre & Hst1 & Hfiles)].
  { rewrite Hsame in Hchanged. congruence. }
  exists p, fl. split; [exact Hpre|].
  destruct (csvUpdate_frame h p t (detectedOf p) (reqTargetLanguage req) st1)
    as (_ & _ & _ & _ & Hframe).
  destruct (decide (f = csvFileOf (detectedOf p) (reqTargetLanguage req)))
    as [->|Hne].
  - split; [reflexivity|]. intros Htgt s' t'.
    apply csvFile_is_no_idiom_table, Htgt.
  - exfalso. apply Hchanged. rewrite Hfiles, (Hframe f Hne), Hst1.
    reflexivity.
Qed.

(** The theorem at "good morning", whose idiom the route records: the
    file that changed is [en-hi.csv]. *)
Lemma route_changes_only_the_pair_file_witness :
  exists p fl,
    fst (preprocessStep (tableHost []) (toHindi (js "good morning"))
           (freshState idiomFiles)) = Ok (p, fl)
    /\ "en-hi.csv"%string = csvFileOf (detectedOf p) "hi"
    /\ (In "hi"%string supportedLangs ->
        forall s t, idiomFileOf s t <> Some "en-hi.csv"%string).
Proof.
  apply (route_changes_only_the_pair_file (tableHost [])
           (toHindi (js "good morning")) (freshState idiomFiles)
           "en-hi.csv"%string).
  vm_compute. discriminate.
Defined.

Lemma engineState_addEvents_trace {A} h evs evs0 st (r : Result A) :
  trace (snd (r, engineState h evs (addEvents evs0 st)))
  = (evs ++ evs0) ++ trace st.
Proof. simpl. apply app_assoc. Qed.

(** The files [translateText] reads are the idiom table and the phrase
    file of its pair. *)
Lemma translateText_trace h (p : jsstring) tgt src st :
  exists evs,
    trace (snd (translateText h p (Code tgt) (Some src) st)) = evs ++ trace st
    /\ Forall (fun e => forall f, fileOf e = Some f ->
                 idiomFileOf src tgt = Some f \/ f = csvFileOf src tgt) evs.
Proof.
  assert (Hidiom : Forall (fun e => forall f, fileOf e = Some f ->
                     idiomFileOf src tgt = Some f \/ f = csvFileOf src tgt)
                     (idiomReads src tgt)).
  { unfold idiomReads. destruct (idiomFileOf src tgt) as [f0|];
      [|constructor].
    constructor; [|constructor]. simpl. intros f [= <-]. auto. }
  assert (Hphrase : Forall (fun e => forall f, fileOf e = Some f ->
                      idiomFileOf src tgt = Some f \/ f = csvFileOf src tgt)
                      (phraseReads h (files st) src tgt)).
  { unfold phraseReads. destruct (readdirFails h); [|case_bool_decide].
    - constructor; [simpl; discriminate | constructor].
    - constructor; [simpl; intros f [= <-]; auto|].
      constructor; [simpl; discriminate | constructor].
    - constructor; [simpl; discriminate | constructor]. }
  assert (Hload : Forall (fun e => forall f, fileOf e = Some f ->
                    idiomFileOf src tgt = Some f \/ f = csvFileOf src tgt)
                    (loadEvents (modelCache st))).
  { unfold loadEvents.
    destruct (translator (modelCache st) || translatorPromise (modelCache st));
      [constructor|].
    constructor; [simpl; discriminate | constructor]. }
  destruct (truthy (trim p)) eqn:Hblank.
  2: { exists []. rewrite translateText_shortcut by auto. auto. }
  destruct (String.eqb_spec src tgt) as [->|Hne].
  { exists []. rewrite translateText_shortcut by auto. auto. }
  rewrite translateText_steps by assumption.
  destruct (idiomOf h (files st) p src tgt).
  { exists (idiomReads src tgt). auto. }
  rewrite localPromise_run. cbv zeta. simpl modelCache.
  destruct (translator (modelCache st) || pipelineResolves h).
  2: { eexists. split; [apply engineState_addEvents_trace|].
       repeat apply Forall_app_2; auto. }
  destruct (String.eqb src "en" || String.eqb tgt "en").
  - destruct (answerOf h p src tgt);
      (eexists; split; [apply engineState_addEvents_trace|];
       apply Forall_app_2; [|apply Forall_app_2; auto];
       constructor; [simpl; discriminate | exact Hload]).
  - destruct (answerOf h p src "en") as [mid|e].
    + destruct (answerOf h mid "en" tgt);
        (eexists; split; [apply engineState_addEvents_trace|];
         apply Forall_app_2; [|apply Forall_app_2; auto];
         constructor; [simpl; discriminate|];
         constructor; [simpl; discriminate | exact Hload]).
    + eexists. split; [apply engineState_addEvents_trace|].
      apply Forall_app_2; [|apply Forall_app_2; auto].
      constructor; [simpl; discriminate | exact Hload].
Qed.

(** No file of a detected language is a file of the source Marathi. *)
Lemma detected_files_not_marathi (p : jsstring) tgt f :
  idiomFileOf (detectedOf p) tgt = Some f \/ f = csvFileOf (detectedOf p) tgt ->
  f <> "mr-en-idioms.csv"%string /\ forall tgt', f <> csvFileOf "mr" tgt'.
Proof.
  pose proof (detectedOf_cases p) as Hdet.
  generalize dependent (detectedOf p). intros d Hdet Hf. simpl in Hdet.
  destruct Hf as [Hidiom | ->].
  - unfold idiomFileOf in Hidiom.
    destruct Hdet as [<-|[<-|[<-|[<-|[]]]]];
      split_eqb; try discriminate; injection Hidiom as <-;
      (split; [discriminate | intros tgt'; discriminate]).
  - destruct Hdet as [<-|[<-|[<-|[<-|[]]]]];
      (split; [discriminate | intros tgt'; discriminate]).
Qed.

(** X5.  The only files a request reads, probes or writes are the idiom
    table and the phrase file of the pair (detected language, target
    language).  The detected language is Tamil, Telugu, Hindi or English,
    never Marathi: through the route the table [mr-en-idioms.csv] is
    never read and no phrase file of the source Marathi is read or
    written; Marathi text is served from the Hindi files. *)
Theorem route_touches_only_the_pair_files h req st :
  exists evs,
    trace (snd (translateRoute h req st)) = evs ++ trace st
    /\ forall e f,
         In e evs -> fileOf e = Some f ->
         exists p fl,
           fst (preprocessStep h req st) = Ok (p, fl)
           /\ In (detectedOf p) ["ta"; "te"; "hi"; "en"]%string
           /\ (idiomFileOf (detectedOf p) (reqTargetLanguage req) = Some f
               \/ f = csvFileOf (detectedOf p) (reqTargetLanguage req))
           /\ f <> "mr-en-idioms.csv"%string
           /\ forall tgt', f <> csvFileOf "mr" tgt'.
Proof.
  destruct (fst (preprocessStep h req st)) as [[p fl]|e0] eqn:Hpre.
  2: { exists []. rewrite (preprocess_failure _ _ _ _ Hpre).
       split; [reflexivity | intros e f []]. }
  assert (Hgoal : exists evs,
             trace (snd (translateRoute h req st)) = evs ++ trace st
             /\ Forall (fun e => forall f, fileOf e = Some f ->
                          idiomFileOf (detectedOf p) (reqTargetLanguage req)
                          = Some f
                          \/ f = csvFileOf (detectedOf p)
                                   (reqTargetLanguage req)) evs).
  { rewrite (translateRoute_steps _ _ _ _ _ Hpre).
    destruct (translateText_trace h p (reqTargetLanguage req) (detectedOf p) st)
      as (evs1 & Htr1 & Hevs1).
    destruct (translateText h p _ _ st) as [[t|e] st1]; simpl in Htr1.
    2: { exists evs1. auto. }
    destruct (csvUpdate_frame h p t (detectedOf p) (reqTargetLanguage req) st1)
      as (evs2 & _ & Htr2 & Hevs2 & _).
    exists (evs2 ++ evs1). split.
    - destruct (csvUpdate h p t _ _ st1) as [[[]|e] st2]; simpl in *;
        rewrite Htr2, Htr1, app_assoc; reflexivity.
    - apply Forall_app. split; [|exact Hevs1].
      eapply Forall_impl; [exact Hevs2|]. simpl.
      intros e He f Hf. rewrite He in Hf. injection Hf as <-. auto. }
  destruct Hgoal as (evs & Htr & Hevs). exists evs. split; [exact Htr|].
  intros e f Hin Hf. exists p, fl. split; [reflexivity|].
  split; [apply detectedOf_cases|].
  assert (Hfile : idiomFileOf (detectedOf p) (reqTargetLanguage req) = Some f
                  \/ f = csvFileOf (detectedOf p) (reqTargetLanguage req)).
  { rewrite Forall_forall in Hevs. apply (Hevs e); [|exact Hf].
    apply list_elem_of_In, Hin. }
  split; [exact Hfile|]. apply (detected_files_not_marathi p _ f Hfile).
Qed.

(** X6.  With working file operations the phrase cache only grows: after
    a request every file still begins with its old content, and when the
    pair's file already lists the text as a source, with whatever target,
    no file changes at all.  A record is never replaced or removed. *)
Theorem phrase_cache_is_append_only h req st :
  ioHealthy h ->
  (forall f content,
      files st !! f = Some content ->
      exists suffix,
        files (snd (translateRoute h req st)) !! f = Some (content ++ suffix))
  /\ (forall p fl,
         fst (preprocessStep h req st) = Ok (p, fl) ->
         phraseListed h (files st) p (detectedOf p) (reqTargetLanguage req)
         = true ->
         files (snd (translateRoute h req st)) = files st).
Proof.
  intros Hio.
  assert (Hform : files (snd (translateRoute h req st)) = files st
                  \/ exists p fl t,
                       fst (preprocessStep h req st) = Ok (p, fl)
                       /\ phraseListed h (files st) p (detectedOf p)
                            (reqTargetLanguage req) = false
                       /\ files (snd (translateRoute h req st))
                          = appended (files st)
                              (csvFileOf (detectedOf p) (reqTargetLanguage req))
                              (csvRecord p t)).
  { destruct (translateRoute_files h req st)
      as [Hsame | (p & fl & t & st1 & Hpre & Hst1 & Hfiles)]; [auto|].
    destruct (csvUpdate_healthy h p t (detectedOf p) (reqTargetLanguage req)
                st1 Hio) as (evs & Hrun & _).
    rewrite Hrun in Hfiles. simpl in Hfiles. rewrite Hst1 in Hfiles.
    destruct (phraseListed h (files st) p _ _) eqn:Hl.
    - left. rewrite Hfiles, andb_false_r. reflexivity.
    - destruct (truthy t && differs h t p); simpl in Hfiles; [|auto].
      right. exists p, fl, t. auto. }
  split.
  - intros f content Hf.
    destruct Hform as [-> | (p & fl & t & _ & _ & ->)].
    + exists []. rewrite app_nil_r. exact Hf.
    + unfold appended.
      destruct (decide (csvFileOf (detectedOf p) (reqTargetLanguage req) = f))
        as [<-|Hne].
      * rewrite lookup_insert_eq, Hf. simpl. eauto.
      * rewrite lookup_insert_ne by exact Hne. exists [].
        rewrite app_nil_r. exact Hf.
  - intros p fl Hpre Hl.
    destruct Hform as [-> | (p' & fl' & t & Hpre' & Hl' & _)]; [reflexivity|].
    rewrite Hpre in Hpre'. injection Hpre' as <- <-. congruence.
Qed.

(** The theorem at "hello" with a phrase file that lists it: nothing
    changes. *)
Lemma phrase_cache_is_append_only_witness :
  files (snd (translateRoute (tableHost [(js "hello", namaskar)])
                (toHindi (js "hello")) (freshState phraseFiles)))
  = phraseFiles.
Proof.
  assert (Hio : ioHealthy (tableHost [(js "hello", namaskar)]))
    by (repeat split).
  destruct (phrase_cache_is_append_only (tableHost [(js "hello", namaskar)])
              (toHindi (js "hello")) (freshState phraseFiles) Hio)
    as [_ Hlisted].
  apply (Hlisted (js "hello") noFlags); reflexivity.
Defined.

(** X7.  When preprocessing throws, or when the request reaches the
    engine and the engine fails, the handler's [catch] answers: status
    500, and the text of the request (not the preprocessed one) as
    original, preprocessed and translated text, with ['en'] as detected
    language.  No file has been written; after a preprocessing failure
    nothing at all has happened. *)
Theorem failing_request_echoes_request_text h req st :
  (forall e,
      fst (preprocessStep h req st) = Throw e ->
      translateRoute h req st = (fallbackResponse req e, st))
  /\ (forall (p : jsstring) fl e,
         fst (preprocessStep h req st) = Ok (p, fl) ->
         truthy (trim p) = true ->
         detectedOf p <> reqTargetLanguage req ->
         idiomOf h (files st) p (detectedOf p) (reqTargetLanguage req) = None ->
         engineOf h (modelCache st) p (detectedOf p) (reqTargetLanguage req)
         = Throw e ->
         fst (translateRoute h req st) = fallbackResponse req e
         /\ files (snd (translateRoute h req st)) = files st)
  /\ (forall e,
         status (fallbackResponse req e) = 500
         /\ translated (fallbackResponse req e) = reqText req
         /\ preprocessed (fallbackResponse req e) = reqText req
         /\ detectedLanguage (fallbackResponse req e) = "en"%string).
Proof.
  split; [apply preprocess_failure|]. split; [|intros e; repeat split].
  intros p fl e Hpre Hblank Hne Hidiom Hengine.
  rewrite (translateRoute_steps _ _ _ _ _ Hpre).
  pose proof (translateText_value h p _ _ st Hblank Hne Hidiom) as Hv.
  rewrite Hengine in Hv.
  pose proof (translateText_files h p (reqTargetLanguage req) (detectedOf p) st)
    as Hf.
  destruct (translateText h p _ _ st) as [res st1]. simpl in Hv, Hf.
  subst res. auto.
Qed.

(** X8.  When neither table holds the text and the engine hands back a
    text that equals it after trimming and lower-casing (the model has no
    translation, or returns nothing at all), the route answers 200 with
    the preprocessed text itself and records nothing: the CSV update
    does not even probe the phrase file, and no file changes, on any
    host. *)
Theorem untranslated_text_is_echoed_not_cached h req st (p : jsstring) fl
    (r : jsstring) :
  fst (preprocessStep h req st) = Ok (p, fl) ->
  truthy (trim p) = true -> detectedOf p <> reqTargetLanguage req ->
  idiomOf h (files st) p (detectedOf p) (reqTargetLanguage req) = None ->
  phraseOf h (files st) p (detectedOf p) (reqTargetLanguage req) = None ->
  engineOf h (modelCache st) p (detectedOf p) (reqTargetLanguage req) = Ok r ->
  differs h r p = false ->
  fst (translateRoute h req st) = okResponse req p fl p (detectedOf p)
  /\ files (snd (translateRoute h req st)) = files st
  /\ snd (translateRoute h req st)
     = snd (translateText h p (Code (reqTargetLanguage req))
              (Some (detectedOf p)) st).
Proof.
  intros Hpre Hblank Hne Hidiom Hphrase Hengine Hdiff.
  rewrite (translateRoute_steps _ _ _ _ _ Hpre).
  pose proof (translateText_value h p _ _ st Hblank Hne Hidiom) as Hv.
  rewrite Hengine, Hphrase, Hdiff in Hv.
  pose proof (translateText_files h p (reqTargetLanguage req) (detectedOf p) st)
    as Hf.
  destruct (translateText h p _ _ st) as [res st1]. simpl in Hv, Hf.
  subst res. unfold csvUpdate. rewrite differs_same, andb_false_r. simpl.
  auto.
Qed.

(** The theorem at "xyzzy123", which the model hands back unchanged. *)
Lemma untranslated_text_is_echoed_not_cached_witness :
  fst (translateRoute (tableHost []) (toHindi (js "xyzzy123"))
         (freshState idiomFiles))
  = okResponse (toHindi (js "xyzzy123")) (js "xyzzy123") noFlags
      (js "xyzzy123") "en"
  /\ files (snd (translateRoute (tableHost []) (toHindi (js "xyzzy123"))
                   (freshState idiomFiles))) = idiomFiles.
Proof.
  destruct (untranslated_text_is_echoed_not_cached (tableHost [])
              (toHindi (js "xyzzy123")) (freshState idiomFiles)
              (js "xyzzy123") noFlags (js "xyzzy123")
              eq_refl eq_refl ltac:(discriminate) eq_refl eq_refl eq_refl
              eq_refl) as (Hresp & Hfiles & _).
  split; assumption.
Defined.

(** The theorem at a model that cannot be loaded. *)
Lemma failing_request_echoes_request_text_witness :
  fst (translateRoute noEngineHost (toHindi (js "hello"))
         (freshState phraseFiles))
  = fallbackResponse (toHindi (js "hello")) LoadFailed
  /\ files (snd (translateRoute noEngineHost (toHindi (js "hello"))
                   (freshState phraseFiles))) = phraseFiles.
Proof.
  destruct (failing_request_echoes_request_text noEngineHost
              (toHindi (js "hello")) (freshState phraseFiles))
    as (_ & Hengine & _).
  apply (Hengine (js "hello") noFlags LoadFailed);
    [reflexivity | reflexivity | discriminate | reflexivity | reflexivity].
Defined.

(** ** The audio route *)

Arguments pollLoop : simpl never.

Lemma accepted_run h sv req transcriptId st :
  accepted sv req transcriptId ->
  transcribeAndTranslate h sv req st
  = finishTranscript h (default ""%string (audioTargetLanguage req))
      (fst (pollLoop (pollTranscript sv transcriptId) 0 20 "en")) st.
Proof.
  intros (Hpath & Htgt & Hex & Hkey & url & Hup & Hreq).
  unfold transcribeAndTranslate.
  rewrite Hpath, Htgt, Hex, Hkey, Hup, Hreq. reflexivity.
Qed.



Lemma pollLoop_S poll i n lang :
  pollLoop poll i (S n) lang
  = match poll i with
    | PollThrows => (PollError, S i)
    | PollData status text language_code =>
        if String.eqb status "completed" then
          (PollCompleted text
             (if truthyS language_code then default lang language_code
              else lang), S i)
        else if String.eqb status "failed" then (PollFailed, S i)
        else pollLoop poll (S i) n lang
    end.
Proof. reflexivity. Qed.

Lemma pollLoop_O poll i lang : pollLoop poll i 0 lang = (PollExhausted, i).
Proof. reflexivity. Qed.

(** The loop makes at most [n] polls, the ones numbered from [i]. *)
Lemma pollLoop_count poll n : forall i lang,
  (i <= snd (pollLoop poll i n lang) <= i + n)%nat.
Proof.
  induction n as [|n IH]; intros i lang.
  - rewrite pollLoop_O. simpl. lia.
  - rewrite pollLoop_S. destruct (poll i) as [|status text lc]; simpl; [lia|].
    destruct (String.eqb status "completed"); simpl; [lia|].
    destruct (String.eqb status "failed"); simpl; [lia|].
    specialize (IH (S i) lang). lia.
Qed.

Lemma pollLoop_ext poll poll' n : forall i lang,
  (forall k, (i <= k < i + n)%nat -> poll k = poll' k) ->
  pollLoop poll i n lang = pollLoop poll' i n lang.
Proof.
  induction n as [|n IH]; intros i lang Hext; [reflexivity|].
  rewrite !pollLoop_S, <- (Hext i) by lia.
  destruct (poll i) as [|status text lc]; [reflexivity|].
  destruct (String.eqb status "completed"); [reflexivity|].
  destruct (String.eqb status "failed"); [reflexivity|].
  apply IH. intros k Hk. apply Hext. lia.
Qed.

(** A poll that neither throws nor reports the end of the transcription. *)
Lemma pollLoop_pending poll n : forall i lang,
  (forall k, (i <= k < i + n)%nat ->
             exists status text lc,
               poll k = PollData status text lc
               /\ status <> "completed"%string /\ status <> "failed"%string) ->
  pollLoop poll i n lang = (PollExhausted, (i + n)%nat).
Proof.
  induction n as [|n IH]; intros i lang Hpend.
  - rewrite pollLoop_O. f_equal. lia.
  - rewrite pollLoop_S.
    destruct (Hpend i ltac:(lia)) as (status & text & lc & -> & Hc & Hf).
    apply String.eqb_neq in Hc, Hf. rewrite Hc, Hf.
    rewrite IH; [f_equal; lia|]. intros k Hk. apply Hpend. lia.
Qed.

(** X10.  The audio route polls the transcript at most twenty times and
    never looks at a later poll.  When none of the first twenty polls
    reports [completed] or [failed], and also when a poll reports
    [completed] with an empty or missing text, the route answers 500
    "Transcription timed out"; the model is not invoked and nothing
    changes. *)
Theorem polling_stops_after_twenty h sv req transcriptId st :
  accepted sv req transcriptId ->
  (snd (pollLoop (pollTranscript sv transcriptId) 0 20 "en") <= 20)%nat
  /\ (forall poll',
         (forall k, (k < 20)%nat -> pollTranscript sv transcriptId k = poll' k) ->
         pollLoop (pollTranscript sv transcriptId) 0 20 "en"
         = pollLoop poll' 0 20 "en")
  /\ ((forall k, (k < 20)%nat ->
         exists status text lc,
           pollTranscript sv transcriptId k = PollData status text lc
           /\ status <> "completed"%string /\ status <> "failed"%string) ->
      transcribeAndTranslate h sv req st
      = (Ok (AudioRefused 500 "Transcription timed out"), st))
  /\ (forall text lang,
         fst (pollLoop (pollTranscript sv transcriptId) 0 20 "en")
         = PollCompleted text lang ->
         truthyO text = false ->
         transcribeAndTranslate h sv req st
         = (Ok (AudioRefused 500 "Transcription timed out"), st)).
Proof.
  intros Hacc. rewrite (accepted_run _ _ _ _ _ Hacc).
  split; [|split; [|split]].
  - apply (pollLoop_count _ 20 0%nat).
  - intros poll' Hext. apply pollLoop_ext. intros k Hk. apply Hext. lia.
  - intros Hpend. rewrite pollLoop_pending; [reflexivity|].
    intros k Hk. apply Hpend. lia.
  - intros text lang -> Htext. simpl. rewrite Htext. reflexivity.
Qed.

(** The theorem at a transcript that stays queued. *)
Lemma polling_stops_after_twenty_witness :
  transcribeAndTranslate (tableHost []) stuckService
    (audioRequest "msg-1.m4a" "hi") (freshState ∅)
  = (Ok (AudioRefused 500 "Transcription timed out"), freshState ∅).
Proof.
  assert (Hacc : accepted stuckService (audioRequest "msg-1.m4a" "hi") "id").
  { repeat split. exists "url"%string. split; reflexivity. }
  destruct (polling_stops_after_twenty (tableHost []) stuckService
              (audioRequest "msg-1.m4a" "hi") "id" (freshState ∅) Hacc)
    as (_ & _ & Hstuck & _).
  apply Hstuck. intros k _. exists "queued"%string, None, None.
  repeat split; discriminate.
Defined.




(** ** Language detection route and the tables of languages *)

(** X12.  [POST /detect] answers 400 "Text is required" exactly when the
    text is missing or another falsy value, or is a string that is empty
    or white space; it answers 500 exactly when the text is a truthy
    value that is no string; and it answers 200 with the detector's
    answer for every other string.  The language it reports is one of
    ['ta'], ['te'], ['hi'], ['en']. *)
Theorem detect_route_refuses_blank_text (text : BodyText) :
  (detectStatus (detectRoute text) = 400
   <-> text = NotAString false
       \/ exists t, text = TextString t /\ truthy (trim t) = false)
  /\ (detectStatus (detectRoute text) = 500 <-> text = NotAString true)
  /\ (forall t, text = TextString t -> truthy (trim t) = true ->
                detectRoute text
                = {| detectStatus := 200; detectMessage := None;
                     detectDetected := Some (detectLanguage t) |})
  /\ (forall d, detectDetected (detectRoute text) = Some d ->
                In (language d) ["ta"; "te"; "hi"; "en"]%string).
Proof.
  assert (Hlen : forall t : jsstring,
             (length (trim t) =? 0)%nat = negb (truthy (trim t))).
  { intros t. destruct (trim t); reflexivity. }
  assert (Hblank : forall t : jsstring,
             negb (truthy t) || (length (trim t) =? 0)%nat
             = negb (truthy (trim t))).
  { intros t. rewrite Hlen. destruct t as [|c r]; [reflexivity|].
    reflexivity. }
  unfold detectRoute. destruct text as [t|[|]]; [rewrite Hblank| |].
  - destruct (truthy (trim t)) eqn:Ht; simpl.
    + split; [|split; [|split]].
      * split; [discriminate|].
        intros [? | (t' & [= <-] & Ht')]; congruence.
      * split; discriminate.
      * intros t' [= <-] _. reflexivity.
      * intros d [= <-]. unfold detectLanguage.
        destruct (tamilRegex t), (teluguRegex t), (hindiRegex t);
          simpl; auto.
    + split; [|split; [|split]].
      * split; [eauto | reflexivity].
      * split; discriminate.
      * intros t' [= <-] Ht'. congruence.
      * discriminate.
  - simpl. split; [|split; [|split]].
    + split; [discriminate|].
      intros [? | (t' & ? & _)]; discriminate.
    + split; reflexivity.
    + discriminate.
    + intros d [= <-]. simpl. auto.
  - simpl. split; [|split; [|split]].
    + split; [auto | reflexivity].
    + split; discriminate.
    + discriminate.
    + discriminate.
Qed.

Lemma languageMap_unsupported (code : string) :
  ~ In code ["en"; "hi"; "mr"; "te"; "ta"]%string ->
  languageMap !! code = None.
Proof.
  intros Hnot. simpl in Hnot. unfold languageMap. simpl.
  rewrite !lookup_insert_ne by (intros <-; tauto).
  apply lookup_empty.
Qed.

(** X13.  The tables of languages agree: a code is offered by
    [getSupportedLanguages] exactly when [GET /languages] lists it, when
    it is a key of [languageMap], when the audio route supports it and
    when it has a code of its own in [nllbLangMap], so that no offered
    language is sent to the model as English by default; the names of
    the two tables agree; and the detector answers with offered codes
    only.  The native names that [GET /languages] lists are detected as
    their own language, but for Marathi's, which is detected as Hindi. *)
Theorem language_tables_agree (code : string) :
  (In code (map fst getSupportedLanguages)
   <-> In code (map langCode supportedLanguages))
  /\ (In code (map fst getSupportedLanguages) <-> In code supportedLangs)
  /\ (In code (map fst getSupportedLanguages)
      <-> is_Some (languageMap !! code))
  /\ (In code (map fst getSupportedLanguages)
      <-> is_Some (nllbLangMap !! code))
  /\ (forall name, In (code, name) getSupportedLanguages ->
                   languageMap !! code = Some name)
  /\ (forall p : jsstring,
         In (detectedOf p) (map fst getSupportedLanguages))
  /\ (forall e, In e supportedLanguages ->
                language (detectLanguage (nativeName e))
                = if String.eqb (langCode e) "mr" then "hi"%string
                  else langCode e).
Proof.
  split; [|split; [|split; [|split; [|split; [|split]]]]].
  - simpl. tauto.
  - simpl. tauto.
  - split.
    + simpl. intros [<-|[<-|[<-|[<-|[<-|[]]]]]]; vm_compute; eauto.
    + intros [name Hname].
      destruct (in_dec string_dec code ["en"; "hi"; "mr"; "te"; "ta"]%string)
        as [Hin|Hnot]; [exact Hin|].
      rewrite (languageMap_unsupported _ Hnot) in Hname. discriminate.
  - split.
    + simpl. intros [<-|[<-|[<-|[<-|[<-|[]]]]]]; vm_compute; eauto.
    + intros [name Hname].
      destruct (in_dec string_dec code ["en"; "hi"; "mr"; "te"; "ta"]%string)
        as [Hin|Hnot]; [exact Hin|].
      assert (Hnot' : ~ In code ["en"; "hi"; "mr"; "ta"; "te"]%string)
        by (simpl in *; tauto).
      destruct (nllbCode_unsupported _ Hnot') as [Hnone _].
      rewrite Hnone in Hname. discriminate.
  - simpl. intros name [H|[H|[H|[H|[H|[]]]]]]; injection H as <- <-;
      reflexivity.
  - intros p. pose proof (detectedOf_cases p) as Hdet. simpl in *. tauto.
  - simpl. intros e [<-|[<-|[<-|[<-|[<-|[]]]]]]; reflexivity.
Qed.

(** ** The model load, once more *)

(** A translator is cached only when the first promise has fulfilled. *)
Lemma step_fulfilled a s s' :
  consistent s ->
  (forall m, cachedTranslator s = Some m ->
             promises s !! 0%nat = Some Fulfilled) ->
  step a s = Some s' ->
  forall m, cachedTranslator s' = Some m ->
            promises s' !! 0%nat = Some Fulfilled.
Proof.
  intros (HA & HB & HC & HD) HF Hstep. destruct a as [i | p ok | i];
    simpl in Hstep.
  - destruct (callers s !! i) as [[| | |]|]; try discriminate.
    destruct (cachedTranslator s) as [m0|] eqn:Htr.
    + injection Hstep as <-. simpl. rewrite Htr. exact HF.
    + destruct (cachedPromise s); injection Hstep as <-; simpl;
        rewrite ?Htr; discriminate.
  - destruct (promises s !! p) as [[| |]|] eqn:Hp; try discriminate.
    injection Hstep as <-. simpl. intros m Hm.
    destruct (decide (p = 0%nat)) as [->|Hne].
    + specialize (HF m Hm). congruence.
    + rewrite list_lookup_insert_ne by exact Hne. apply (HF m Hm).
  - destruct (callers s !! i) as [[|p| |]|] eqn:Hi; try discriminate.
    assert (Hp : cachedPromise s = Some p).
    { apply (proj1 (Forall_lookup _ _) HD i _ Hi). }
    destruct (HB p Hp) as [-> _].
    destruct (promises s !! 0%nat) as [[| |]|] eqn:Hpm; try discriminate;
      injection Hstep as <-; simpl.
    + intros _ _. exact Hpm.
    + intros m Hm. specialize (HF m Hm). congruence.
Qed.

Lemma exec_fulfilled acts : forall s s',
  consistent s ->
  (forall m, cachedTranslator s = Some m ->
             promises s !! 0%nat = Some Fulfilled) ->
  exec acts s = Some s' ->
  forall m, cachedTranslator s' = Some m ->
            promises s' !! 0%nat = Some Fulfilled.
Proof.
  induction acts as [|a rest IH]; simpl; intros s s' Hs HF Hexec.
  - injection Hexec as <-. exact HF.
  - destruct (step a s) as [s1|] eqn:Hstep; [|discriminate].
    apply (IH s1 s'); [|eapply step_fulfilled; eauto|exact Hexec].
    eapply step_consistent; eauto.
Qed.

(** A promise that has rejected stays rejected. *)
Lemma step_failed_stays a s s' p :
  step a s = Some s' -> promises s !! p = Some Failed ->
  promises s' !! p = Some Failed.
Proof.
  intros Hstep Hp. destruct a as [i | q ok | i]; simpl in Hstep.
  - destruct (callers s !! i) as [[| | |]|]; try discriminate.
    destruct (cachedTranslator s).
    + injection Hstep as <-. exact Hp.
    + destruct (cachedPromise s); injection Hstep as <-; simpl; [exact Hp|].
      apply lookup_app_l_Some, Hp.
  - destruct (promises s !! q) as [[| |]|] eqn:Hq; try discriminate.
    injection Hstep as <-. simpl.
    rewrite list_lookup_insert_ne; [exact Hp|]. intros <-. congruence.
  - destruct (callers s !! i) as [[|q| |]|]; try discriminate.
    destruct (promises s !! q) as [[| |]|]; try discriminate;
      injection Hstep as <-; exact Hp.
Qed.

Lemma exec_failed_stays acts p : forall s s',
  exec acts s = Some s' -> promises s !! p = Some Failed ->
  promises s' !! p = Some Failed.
Proof.
  induction acts as [|a rest IH]; simpl; intros s s' Hexec Hp.
  - injection Hexec as <-. exact Hp.
  - destruct (step a s) as [s1|] eqn:Hstep; [|discriminate].
    apply (IH s1 s' Hexec). eapply step_failed_stays; eauto.
Qed.

(** X14.  A model load that fails is never tried again.  Once the
    promise of [pipeline] has rejected, whatever calls of [loadModel] run
    afterwards, in whatever order: [pipeline] is not called a second
    time, no translator is ever cached, and no call ever returns a model;
    the rejected promise stays in the cache for the life of the
    process. *)
Theorem failed_load_is_never_retried n acts s :
  exec acts (unloaded n) = Some s ->
  promises s !! 0%nat = Some Failed ->
  forall acts' s',
    exec acts' s = Some s' ->
    loads s' = 1%nat
    /\ cachedPromise s' = Some 0%nat
    /\ promises s' !! 0%nat = Some Failed
    /\ cachedTranslator s' = None
    /\ (forall i m, callers s' !! i <> Some (Returned m)).
Proof.
  intros Hexec Hfailed acts' s' Hexec'.
  assert (Hreach : exec (acts ++ acts') (unloaded n) = Some s').
  { rewrite (exec_app _ _ _ _ Hexec). exact Hexec'. }
  pose proof (exec_consistent _ _ _ (consistent_unloaded n) Hreach) as Hs'.
  pose proof Hs' as (HA & HB & HC & HD).
  pose proof (exec_failed_stays _ _ _ _ Hexec' Hfailed) as Hfailed'.
  assert (Hnone : cachedTranslator s' = None).
  { destruct (cachedTranslator s') as [m|] eqn:Hm; [|reflexivity].
    pose proof (exec_fulfilled (acts ++ acts') (unloaded n) s'
                  (consistent_unloaded n)) as HF.
    rewrite (HF ltac:(discriminate) Hreach m Hm) in Hfailed'. discriminate. }
  assert (Hpr : cachedPromise s' = Some 0%nat).
  { destruct (cachedPromise s') as [p|] eqn:Hp.
    - destruct (HB p eq_refl) as [-> _]. reflexivity.
    - destruct (HA eq_refl) as (Hnil & _). rewrite Hnil in Hfailed'.
      discriminate. }
  split; [apply (HB _ Hpr)|]. split; [exact Hpr|].
  split; [exact Hfailed'|]. split; [exact Hnone|].
  intros i m Hi.
  pose proof (proj1 (Forall_lookup _ _) HD i _ Hi) as Hret. simpl in Hret.
  congruence.
Qed.

(** The theorem at two calls around a rejected load: the second call,
    made after the rejection, is rejected too and loads nothing. *)
Lemma failed_load_is_never_retried_witness :
  exists s',
    exec [Run 1; Resume 1] 
      {| cachedTranslator := None; cachedPromise := Some 0%nat;
         promises := [Failed]; callers := [Rejected; Called] |} = Some s'
    /\ callers s' = [Rejected; Rejected]
    /\ loads s' = 1%nat.
Proof.
  eexists. split; [reflexivity|]. split; [reflexivity|].
  eapply (failed_load_is_never_retried 2 [Run 0; Settle 0 false; Resume 0]
            _ eq_refl eq_refl [Run 1; Resume 1]).
  reflexivity.
Defined.

Lemma replicate_snoc_cons {A} (k : nat) (x : A) (l : list A) :
  replicate k x ++ x :: l = replicate (S k) x ++ l.
Proof. induction k as [|k IH]; simpl; [reflexivity|]. f_equal. exact IH. Qed.

Lemma insert_after_replicate {A} (k : nat) (x y z : A) (l : list A) :
  <[k := z]> (replicate k x ++ y :: l) = replicate k x ++ z :: l.
Proof. induction k as [|k IH]; simpl; [reflexivity|]. f_equal. exact IH. Qed.

Lemma lookup_after_replicate {A} (k : nat) (x y : A) (l : list A) :
  (replicate k x ++ y :: l) !! k = Some y.
Proof. induction k as [|k IH]; simpl; [reflexivity|]. exact IH. Qed.

(** The calls that run while the load is pending all join its promise. *)
Lemma exec_run_pending m : forall k,
  exec (map Run (seq k m))
    {| cachedTranslator := None; cachedPromise := Some 0%nat;
       promises := [Pending];
       callers := replicate k (Awaiting 0) ++ replicate m Called |}
  = Some {| cachedTranslator := None; cachedPromise := Some 0%nat;
            promises := [Pending];
            callers := replicate (k + m) (Awaiting 0) |}.
Proof.
  induction m as [|m IH]; intros k.
  - simpl. rewrite app_nil_r, Nat.add_0_r. reflexivity.
  - cbn [seq map exec step replicate callers cachedTranslator cachedPromise].
    rewrite lookup_after_replicate. unfold setCaller.
    cbn [callers cachedTranslator cachedPromise promises].
    rewrite insert_after_replicate, replicate_snoc_cons, IH.
    replace (S k + m)%nat with (k + S m)%nat by lia. reflexivity.
Qed.

(** The calls that resume after the load has fulfilled all return its
    instance. *)
Lemma exec_resume_fulfilled m : forall k tr,
  exec (map Resume (seq k m))
    {| cachedTranslator := tr; cachedPromise := Some 0%nat;
       promises := [Fulfilled];
       callers := replicate k (Returned 0) ++ replicate m (Awaiting 0) |}
  = Some {| cachedTranslator := match m with O => tr | S _ => Some 0%nat end;
            cachedPromise := Some 0%nat;
            promises := [Fulfilled];
            callers := replicate (k + m) (Returned 0) |}.
Proof.
  induction m as [|m IH]; intros k tr.
  - simpl. rewrite app_nil_r, Nat.add_0_r. reflexivity.
  - cbn [seq map exec step replicate callers cachedTranslator cachedPromise].
    rewrite lookup_after_replicate.
    cbn [callers cachedTranslator cachedPromise promises lookup list_lookup].
    rewrite insert_after_replicate, replicate_snoc_cons, IH.
    replace (S k + m)%nat with (k + S m)%nat by lia.
    destruct m; reflexivity.
Qed.

(** X15.  Any number of first calls that overlap are all served by one
    load: when [n >= 1] calls of [loadModel] all start before the model
    is there and the load succeeds, every one of them returns the same
    instance, [pipeline] has been called once, and that instance is the
    cached one. *)
Theorem overlapping_calls_share_one_load n :
  (1 <= n)%nat ->
  exists s,
    exec (allAtOnce n) (unloaded n) = Some s
    /\ callers s = replicate n (Returned 0)
    /\ loads s = 1%nat
    /\ cachedTranslator s = Some 0%nat.
Proof.
  intros Hn. destruct n as [|n]; [lia|]. unfold allAtOnce.
  eexists. split; [|split; [|split]].
  - change (map Run (seq 0 (S n)))
      with ([Run 0] ++ map Run (seq 1 n)).
    rewrite <- app_assoc.
    rewrite (exec_app [Run 0] _ (unloaded (S n)) _ eq_refl).
    match goal with
    | |- exec ?l _ = ?r =>
        change (exec l {| cachedTranslator := None;
                          cachedPromise := Some 0%nat;
                          promises := [Pending];
                          callers := replicate 1 (Awaiting 0)
                                     ++ replicate n Called |} = r)
    end.
    rewrite (exec_app _ _ _ _ (exec_run_pending n 1)).
    erewrite (exec_app [Settle 0 true]); [|reflexivity].
    change (replicate (1 + n) (Awaiting 0))
      with (replicate 0 (Returned 0) ++ replicate (S n) (Awaiting 0)).
    rewrite exec_resume_fulfilled. reflexivity.
  - reflexivity.
  - reflexivity.
  - reflexivity.
Qed.

(** The theorem at three calls. *)
Lemma overlapping_calls_share_one_load_witness :
  (1 <= 3)%nat
  /\ exists s, exec (allAtOnce 3) (unloaded 3) = Some s
               /\ callers s = replicate 3 (Returned 0)
               /\ loads s = 1%nat
               /\ cachedTranslator s = Some 0%nat.
Proof.
  split; [lia|]. apply (overlapping_calls_share_one_load 3). lia.
Defined.

(** ** The sentences of a message *)

Lemma filter_terminator c r :
  isTerminator c = true ->
  List.filter inSentence (c :: r) = List.filter inSentence r.
Proof.
  intros Hc. cbn [List.filter]. unfold inSentence at 1. rewrite Hc.
  reflexivity.
Qed.

Lemma matchSentences_shape s : forall cur,
  forallb inSentence cur = true ->
  Forall (fun m => exists body tail,
            m = body ++ tail /\ truthy body = true
            /\ forallb inSentence body = true
            /\ (tail = [] \/ exists c, tail = [c] /\ isTerminator c = true))
         (matchSentences cur s).
Proof.
  induction s as [|c r IH]; intros cur Hcur; cbn [matchSentences].
  - destruct cur as [|x cur]; constructor; [|constructor].
    exists (x :: cur), []. rewrite app_nil_r. auto.
  - destruct (isTerminator c) eqn:Hc.
    + destruct cur as [|x cur]; [apply IH; reflexivity|].
      constructor; [|apply IH; reflexivity].
      exists (x :: cur), [c]. repeat split; eauto.
    + apply IH. rewrite forallb_app, Hcur. cbn [forallb andb].
      unfold inSentence. rewrite Hc. reflexivity.
Qed.

Lemma matchSentences_keeps s : forall cur,
  List.filter inSentence (concat (matchSentences cur s))
  = List.filter inSentence (cur ++ s).
Proof.
  induction s as [|c r IH]; intros cur; cbn [matchSentences].
  - destruct cur; cbn [concat]; rewrite ?app_nil_r; reflexivity.
  - destruct (isTerminator c) eqn:Hc.
    + assert (Hdrop : List.filter inSentence (cur ++ c :: r)
                      = List.filter inSentence (cur ++ r)).
      { rewrite !List.filter_app, (filter_terminator c r Hc). reflexivity. }
      rewrite Hdrop. destruct cur as [|x cur]; [apply (IH [])|].
      cbn [concat]. rewrite !List.filter_app, (IH []).
      rewrite (filter_terminator c [] Hc). cbn [List.filter app].
      rewrite app_nil_r. reflexivity.
    + rewrite IH, <- app_assoc. reflexivity.
Qed.

Lemma matchSentences_none s : forall cur,
  matchSentences cur s = [] ->
  cur = [] /\ existsb inSentence s = false.
Proof.
  induction s as [|c r IH]; intros cur; cbn [matchSentences existsb].
  - destruct cur; [auto|discriminate].
  - unfold inSentence at 1. destruct (isTerminator c); cbn [negb orb].
    + destruct cur; [apply IH|discriminate].
    + intros H. destruct (IH _ H) as [Hnil _]. destruct cur; discriminate.
Qed.

(** X16.  How a message is cut into sentences for scoring.  For a
    message that is not empty (the handler returns before on an empty
    one): there is at least one sentence, so the average score never
    divides by zero; no sentence is empty; nothing but [.], [!] and [?]
    is lost, the other code units of the message being those of the
    sentences in order; when the message has a code unit other than
    these three, every sentence is a non-empty run without them followed
    by at most one of them; when it has none, the whole message is the
    one sentence. *)
Theorem sentences_cover_the_message text :
  truthy text = true ->
  (1 <= length (sentencesOf text))%nat
  /\ Forall (fun m => truthy m = true) (sentencesOf text)
  /\ List.filter inSentence (concat (sentencesOf text))
     = List.filter inSentence text
  /\ (existsb inSentence text = true ->
      Forall (fun m => exists body tail,
                m = body ++ tail /\ truthy body = true
                /\ forallb inSentence body = true
                /\ (tail = []
                    \/ exists c, tail = [c] /\ isTerminator c = true))
             (sentencesOf text))
  /\ (existsb inSentence text = false -> sentencesOf text = [text]).
Proof.
  intros Htext.
  pose proof (matchSentences_shape text [] eq_refl) as Hshape.
  pose proof (matchSentences_keeps text []) as Hkeep.
  pose proof (matchSentences_none text []) as Hnone.
  unfold sentencesOf.
  destruct (matchSentences [] text) as [|m ms] eqn:Hms.
  - destruct (Hnone eq_refl) as [_ Hno].
    split; [simpl; lia|]. split; [constructor; [exact Htext|constructor]|].
    split; [simpl; rewrite app_nil_r; reflexivity|].
    split; [congruence|reflexivity].
  - split; [simpl; lia|]. split.
    { eapply Forall_impl; [exact Hshape|]. simpl.
      intros x (body & tail & -> & Hbody & _). destruct body; [discriminate|].
      reflexivity. }
    split; [exact Hkeep|]. split; [intros _; exact Hshape|].
    intros Hno. exfalso. clear Hnone Hkeep.
    inversion Hshape as [|? ? (body & tail & -> & Hbody & Hall & _) _]; subst.
    destruct body as [|b body]; [discriminate|].
    assert (Hb : inSentence b = true).
    { simpl in Hall. apply andb_true_iff in Hall. apply Hall. }
    assert (Hin : List.In b (List.filter inSentence text)).
    { change text with ([] ++ text).
      rewrite <- (matchSentences_keeps text []), Hms. cbn [concat].
      rewrite <- !app_assoc. cbn [app List.filter]. rewrite Hb. left.
      reflexivity. }
    apply List.filter_In in Hin. destruct Hin as [Hin _].
    assert (Hex : existsb inSentence text = true).
    { apply existsb_exists. exists b. auto. }
    congruence.
Qed.

(** The theorem at [Hi! How are you], which has two sentences. *)
Lemma sentences_cover_the_message_witness :
  truthy (js "Hi! How are you") = true
  /\ sentencesOf (js "Hi! How are you") = [js "Hi!"; js " How are you"]
  /\ (1 <= length (sentencesOf (js "Hi! How are you")))%nat.
Proof.
  split; [reflexivity|]. split; [reflexivity|].
  apply (sentences_cover_the_message (js "Hi! How are you")). reflexivity.
Defined.

(** ** Requests one after the other: the model across requests *)

Lemma loadsIn_app a b : loadsIn (a ++ b) = (loadsIn a + loadsIn b)%nat.
Proof. unfold loadsIn. rewrite omap_app, length_app. reflexivity. Qed.

Lemma loadsIn_files evs :
  Forall (fun e => is_Some (fileOf e) \/ e = EvReaddir) evs ->
  loadsIn evs = 0%nat.
Proof.
  induction 1 as [|e evs He _ IH]; [reflexivity|].
  change (e :: evs) with ([e] ++ evs). rewrite loadsIn_app, IH.
  destruct He as [[f Hf]| ->]; [|reflexivity].
  destruct e; try discriminate; reflexivity.
Qed.

Lemma loadsIn_phraseReads h fs s t : loadsIn (phraseReads h fs s t) = 0%nat.
Proof.
  unfold phraseReads. destruct (readdirFails h); [reflexivity|].
  case_bool_decide; reflexivity.
Qed.

Lemma loadsIn_idiomReads s t : loadsIn (idiomReads s t) = 0%nat.
Proof. unfold idiomReads. destruct (idiomFileOf s t); reflexivity. Qed.

Lemma loadsIn_loadEvents mc :
  loadsIn (loadEvents mc)
  = if translator mc || translatorPromise mc then 0%nat else 1%nat.
Proof.
  unfold loadEvents. destruct (translator mc || translatorPromise mc);
    reflexivity.
Qed.

(** What [translateText] does to the model: nothing when it does not get
    to the engine, and otherwise one [loadModel]. *)
Lemma translateText_loads h (p : jsstring) tgt src st :
  let st' := snd (translateText h p (Code tgt) (Some src) st) in
  (modelCache st' = modelCache st /\ modelLoads st' = modelLoads st)
  \/ (modelCache st' = cacheAfterLoad h (modelCache st)
      /\ modelLoads st'
         = (loadsIn (loadEvents (modelCache st)) + modelLoads st)%nat).
Proof.
  cbv zeta.
  destruct (truthy (trim p)) eqn:Hblank.
  2: { left. rewrite translateText_shortcut by auto. auto. }
  destruct (String.eqb_spec src tgt) as [->|Hne].
  { left. rewrite translateText_shortcut by auto. auto. }
  rewrite translateText_steps by assumption.
  destruct (idiomOf h (files st) p src tgt).
  { left. split; [reflexivity|]. unfold modelLoads. simpl.
    fold (loadsIn (idiomReads src tgt ++ trace st)).
    rewrite loadsIn_app, loadsIn_idiomReads. reflexivity. }
  right. rewrite localPromise_run. cbv zeta.
  change (modelCache (addEvents ?e st)) with (modelCache st).
  assert (Hgen : forall (A : Type) (r : Result A) evs,
            loadsIn evs = loadsIn (loadEvents (modelCache st)) ->
            modelCache (snd (r, engineState h evs
                                  (addEvents (phraseReads h (files st) src tgt
                                              ++ idiomReads src tgt) st)))
            = cacheAfterLoad h (modelCache st)
            /\ modelLoads (snd (r, engineState h evs
                                  (addEvents (phraseReads h (files st) src tgt
                                              ++ idiomReads src tgt) st)))
               = (loadsIn (loadEvents (modelCache st)) + modelLoads st)%nat).
  { intros A r evs Hevs. split; [reflexivity|]. unfold modelLoads. simpl.
    fold (loadsIn (evs ++ (phraseReads h (files st) src tgt
                           ++ idiomReads src tgt) ++ trace st)).
    fold (loadsIn (trace st)).
    rewrite !loadsIn_app, loadsIn_phraseReads, loadsIn_idiomReads, Hevs.
    lia. }
  destruct (translator (modelCache st) || pipelineResolves h).
  - destruct (String.eqb src "en" || String.eqb tgt "en").
    + destruct (answerOf h p src tgt); apply Hgen; reflexivity.
    + destruct (answerOf h p src "en") as [mid|e].
      * destruct (answerOf h mid "en" tgt); apply Hgen; reflexivity.
      * apply Hgen. reflexivity.
  - apply Hgen. reflexivity.
Qed.

(** The same for a request: the CSV update leaves the model alone. *)
Lemma translateRoute_loads h req st :
  let st' := snd (translateRoute h req st) in
  (modelCache st' = modelCache st /\ modelLoads st' = modelLoads st)
  \/ (modelCache st' = cacheAfterLoad h (modelCache st)
      /\ modelLoads st'
         = (loadsIn (loadEvents (modelCache st)) + modelLoads st)%nat).
Proof.
  cbv zeta.
  destruct (fst (preprocessStep h req st)) as [[p fl]|e] eqn:Hpre.
  2: { left. rewrite (preprocess_failure _ _ _ _ Hpre). auto. }
  rewrite (translateRoute_steps _ _ _ _ _ Hpre).
  pose proof (translateText_loads h p (reqTargetLanguage req) (detectedOf p) st)
    as Ht. cbv zeta in Ht.
  destruct (translateText h p _ _ st) as [[t|e] st1]; simpl in Ht;
    [|exact Ht].
  destruct (csvUpdate_frame h p t (detectedOf p) (reqTargetLanguage req) st1)
    as (evs & Hmc & Htr & Hevs & _).
  assert (Hsame : modelCache (snd (csvUpdate h p t (detectedOf p)
                                     (reqTargetLanguage req) st1))
                  = modelCache st1
                  /\ modelLoads (snd (csvUpdate h p t (detectedOf p)
                                        (reqTargetLanguage req) st1))
                     = modelLoads st1).
  { split; [exact Hmc|]. unfold modelLoads. rewrite Htr.
    fold (loadsIn (evs ++ trace st1)). fold (loadsIn (trace st1)).
    rewrite loadsIn_app, loadsIn_files; [reflexivity|].
    eapply Forall_impl; [exact Hevs|]. simpl. intros e ->. left. eauto. }
  destruct (csvUpdate h p t _ _ st1) as [[[]|e] st2]; simpl in Hsame |- *;
    destruct Hsame as [-> ->]; exact Ht.
Qed.

Lemma serve_app h a : forall b st,
  snd (serve h (a ++ b) st) = snd (serve h b (snd (serve h a st))).
Proof.
  induction a as [|req a IH]; intros b st; [reflexivity|].
  cbn [app serve].
  destruct (translateRoute h req st) as [resp st1].
  specialize (IH b st1).
  destruct (serve h (a ++ b) st1) as [r2 s2].
  destruct (serve h a st1) as [r1 s1]. simpl in IH |- *. exact IH.
Qed.

Lemma cacheAfterLoad_cached h mc :
  translator (cacheAfterLoad h mc) || translatorPromise (cacheAfterLoad h mc)
  = true.
Proof.
  unfold cacheAfterLoad. destruct mc as [tr pr]. simpl.
  destruct tr; simpl; [reflexivity | apply orb_true_r].
Qed.

(** Requests keep: no load is recorded while nothing is cached, and at
    most one ever; and they never take a load back. *)
Lemma serve_loads h reqs : forall st,
  (translator (modelCache st) || translatorPromise (modelCache st) = false ->
   modelLoads st = 0%nat) ->
  (modelLoads st <= 1)%nat ->
  (translator (modelCache (snd (serve h reqs st)))
   || translatorPromise (modelCache (snd (serve h reqs st))) = false ->
   modelLoads (snd (serve h reqs st)) = 0%nat)
  /\ (modelLoads st <= modelLoads (snd (serve h reqs st)) <= 1)%nat.
Proof.
  induction reqs as [|req reqs IH]; intros st Hnone Hle;
    [simpl; split; [exact Hnone | lia]|].
  cbn [serve].
  pose proof (translateRoute_loads h req st) as Hstep. cbv zeta in Hstep.
  destruct (translateRoute h req st) as [resp st1]. simpl in Hstep.
  specialize (IH st1).
  destruct (serve h reqs st1) as [resps st2]. simpl in IH |- *.
  rewrite loadsIn_loadEvents in Hstep.
  destruct Hstep as [[Hmc Hl]|[Hmc Hl]].
  - rewrite Hmc, Hl in IH. destruct (IH Hnone Hle) as [H0 H1].
    split; [exact H0 | lia].
  - pose proof (cacheAfterLoad_cached h (modelCache st)) as Hc1.
    rewrite <- Hmc in Hc1. rewrite Hc1 in IH.
    destruct (translator (modelCache st) || translatorPromise (modelCache st)).
    + destruct (IH ltac:(discriminate) ltac:(lia)) as [H0 H1].
      split; [exact H0 | lia].
    + specialize (Hnone eq_refl).
      destruct (IH ltac:(discriminate) ltac:(lia)) as [H0 H1].
      split; [exact H0 | lia].
Qed.

(** X17.  Across requests the model is loaded at most once.  Whatever
    requests the translation route serves one after the other from a
    start with nothing cached, and whether the load succeeds or fails,
    [pipeline] is called at most once; once it has been called no later
    request calls it again. *)
Theorem requests_load_the_model_at_most_once h fs reqs :
  (modelLoads (snd (serve h reqs (freshState fs))) <= 1)%nat
  /\ forall more,
       modelLoads (snd (serve h reqs (freshState fs))) = 1%nat ->
       modelLoads (snd (serve h more (snd (serve h reqs (freshState fs)))))
       = 1%nat.
Proof.
  assert (Hfresh : modelLoads (freshState fs) = 0%nat) by reflexivity.
  destruct (serve_loads h reqs (freshState fs) (fun _ => Hfresh)
              ltac:(lia)) as [Hnone Hle].
  split; [lia|]. intros more Hone.
  destruct (serve_loads h more _ Hnone ltac:(lia)) as [_ Hmore]. lia.
Qed.

(** The theorem where the load fails: the first request calls [pipeline],
    the second, served after it, does not call it again. *)
Lemma requests_load_the_model_at_most_once_witness :
  modelLoads (snd (serve noEngineHost [toHindi (js "hello")] (freshState ∅)))
  = 1%nat
  /\ modelLoads
       (snd (serve noEngineHost [toHindi (js "hello")]
               (snd (serve noEngineHost [toHindi (js "hello")]
                       (freshState ∅))))) = 1%nat.
Proof.
  split; [reflexivity|].
  apply (proj2 (requests_load_the_model_at_most_once noEngineHost ∅
                  [toHindi (js "hello")])).
  reflexivity.
Defined.
